(** * KartCollision.js: capsule and box collision against a static BVH collider

    A shallow embedding of [src/utils/KartCollision.js].

    - JavaScript numbers are IEEE-754 binary64 values: they are modelled by
      Rocq's primitive [float], whose operations round exactly as the
      JavaScript ones do.
    - [Vector3] objects that callers can hold (arguments, results and the
      vectors the functions allocate) live in a store indexed by reference;
      [clone] and [new Vector3] allocate, the in-place methods overwrite.
    - The five module-level scratch objects ([tempVector], [tempVector2],
      [tempBox], [tempMat], [tempSegment]) are private to the module, so no
      caller can hold a reference to them: they are separate components of
      the state.
    - Functions run in a state-and-failure monad; failure stands for an
      exception: the [TypeError] of dereferencing something that is not an
      object, or whatever a library call throws.
    - The vector, box and matrix arithmetic of three.js that the module
      calls is written out below as three.js documents it.  What the module
      receives from three.js and three-mesh-bvh as opaque machinery (matrix
      inversion, geometry merging, BVH construction, the triangle objects
      the BVH hands to its callbacks) is taken as a parameter or carried by
      the objects themselves.  The geometry generator and the BVH
      constructor may throw: they are partial.
    - A string is held as its UTF-8 bytes; [includes] on the bytes of
      well-formed strings is [includes] on the strings.  [toLowerCase] is
      the engine's: it is taken as given, with what it does to ASCII. *)

From Stdlib Require Import Floats Ascii DecimalString Lia.
From stdpp Require Import base option list strings.

Set Warnings "-inexact-float,-register-all".

(** ** JavaScript numbers *)

Module JS.
Local Open Scope float_scope.

(** A number is falsy when it is [0], [-0] or [NaN]. *)
Definition falsy (a : float) : bool := is_zero a || is_nan a.

(** [a || d] on numbers. *)
Definition or (a d : float) : float := if falsy a then d else a.

(** [Math.min(a, b)]: [NaN] if either is, and [-0] below [+0]. *)
Definition min (a b : float) : float :=
  if is_nan a || is_nan b then nan
  else if a <? b then a
  else if b <? a then b
  else if get_sign a then a else b.

(** [Math.max(a, b)]. *)
Definition max (a b : float) : float :=
  if is_nan a || is_nan b then nan
  else if a <? b then b
  else if b <? a then a
  else if get_sign a then b else a.

(** [a >= b] is [b <= a]; both are false on [NaN]. *)
Definition geb (a b : float) : bool := b <=? a.

End JS.

(** ** three.js values *)

Module Matrix4.

(** [elements], column-major as three.js stores them. *)
Record t := mk {
  e0 : float; e1 : float; e2 : float; e3 : float;
  e4 : float; e5 : float; e6 : float; e7 : float;
  e8 : float; e9 : float; e10 : float; e11 : float;
  e12 : float; e13 : float; e14 : float; e15 : float }.

(** [new Matrix4()]. *)
Definition identity : t :=
  mk 1 0 0 0
     0 1 0 0
     0 0 1 0
     0 0 0 1.

(** [new Matrix4().makeTranslation(tx, ty, tz)]. *)
Definition makeTranslation (tx ty tz : float) : t :=
  mk 1 0 0 0
     0 1 0 0
     0 0 1 0
     tx ty tz 1.

End Matrix4.

Module Vector3.
Local Open Scope float_scope.

Record t := mk { x : float; y : float; z : float }.

Definition add (a v : t) : t := mk (x a + x v) (y a + y v) (z a + z v).

Definition sub (a v : t) : t := mk (x a - x v) (y a - y v) (z a - z v).

Definition addScalar (a : t) (s : float) : t := mk (x a + s) (y a + s) (z a + s).

Definition multiplyScalar (a : t) (s : float) : t := mk (x a * s) (y a * s) (z a * s).

(** [divideScalar(s)] is [multiplyScalar(1 / s)]. *)
Definition divideScalar (a : t) (s : float) : t := multiplyScalar a (1 / s).

(** [this.x += v.x * s] and so on. *)
Definition addScaledVector (a v : t) (s : float) : t :=
  mk (x a + x v * s) (y a + y v * s) (z a + z v * s).

Definition dot (a v : t) : float := x a * x v + y a * y v + z a * z v.

Definition length (a : t) : float := sqrt (x a * x a + y a * y a + z a * z a).

(** [normalize()] is [divideScalar(length() || 1)]. *)
Definition normalize (a : t) : t := divideScalar a (JS.or (length a) 1).

Definition distanceToSquared (a v : t) : float :=
  let dx := x a - x v in
  let dy := y a - y v in
  let dz := z a - z v in
  dx * dx + dy * dy + dz * dz.

Definition distanceTo (a v : t) : float := sqrt (distanceToSquared a v).

Definition min (a v : t) : t := mk (JS.min (x a) (x v)) (JS.min (y a) (y v)) (JS.min (z a) (z v)).

Definition max (a v : t) : t := mk (JS.max (x a) (x v)) (JS.max (y a) (y v)) (JS.max (z a) (z v)).

(** [applyMatrix4(m)]: the point [(x, y, z, 1)] times [m], divided by the
    resulting [w]; the translation column of [m] takes part. *)
Definition applyMatrix4 (a : t) (m : Matrix4.t) : t :=
  let w := 1 / (Matrix4.e3 m * x a + Matrix4.e7 m * y a + Matrix4.e11 m * z a + Matrix4.e15 m) in
  mk ((Matrix4.e0 m * x a + Matrix4.e4 m * y a + Matrix4.e8 m * z a + Matrix4.e12 m) * w)
     ((Matrix4.e1 m * x a + Matrix4.e5 m * y a + Matrix4.e9 m * z a + Matrix4.e13 m) * w)
     ((Matrix4.e2 m * x a + Matrix4.e6 m * y a + Matrix4.e10 m * z a + Matrix4.e14 m) * w).

End Vector3.

Module Line3.

(** The field [end] of the source is [end_] here. *)
Record t := mk { start : Vector3.t; end_ : Vector3.t }.

End Line3.

Module Box3.
Local Open Scope float_scope.

Record t := mk { min : Vector3.t; max : Vector3.t }.

(** [makeEmpty()]: [min] is [+Infinity] and [max] is [-Infinity] everywhere. *)
Definition makeEmpty : t :=
  mk (Vector3.mk infinity infinity infinity)
     (Vector3.mk neg_infinity neg_infinity neg_infinity).

Definition expandByPoint (b : t) (p : Vector3.t) : t :=
  mk (Vector3.min (min b) p) (Vector3.max (max b) p).

(** [setFromCenterAndSize(center, size)]. *)
Definition setFromCenterAndSize (center size : Vector3.t) : t :=
  let halfSize := Vector3.multiplyScalar size 0.5 in
  mk (Vector3.sub center halfSize) (Vector3.add center halfSize).

(** [this.intersectsBox(box)]. *)
Definition intersectsBox (this box : t) : bool :=
  JS.geb (Vector3.x (max box)) (Vector3.x (min this)) && (Vector3.x (min box) <=? Vector3.x (max this)) &&
  JS.geb (Vector3.y (max box)) (Vector3.y (min this)) && (Vector3.y (min box) <=? Vector3.y (max this)) &&
  JS.geb (Vector3.z (max box)) (Vector3.z (min this)) && (Vector3.z (min box) <=? Vector3.z (max this)).

End Box3.

(** ** Objects supplied by three.js and three-mesh-bvh *)

(** The triangle object that [shapecast] passes to [intersectsTriangle].
    The module calls three of its methods; each is carried by the object.
    [closestPointToSegment segment] is the returned distance with the two
    points the method writes to its targets: the closest point on the
    triangle, then the closest point on the segment.  The module reads
    the targets only when the distance is below the radius.  [getNormal]
    and [getMidpoint] are the vectors those methods write to their
    target. *)
Record ExtendedTriangle := {
  closestPointToSegment : Line3.t -> float * Vector3.t * Vector3.t;
  getNormal : Vector3.t;
  getMidpoint : Vector3.t }.

(** A [MeshBVH].  [shapecast] walks the hierarchy, asks [intersectsBounds]
    about node boxes and hands the triangles of the leaves it reaches to
    [intersectsTriangle], one after the other.  [candidates] is that
    sequence of triangles, in traversal order, for a bounds test. *)
Record MeshBVH := {
  candidates : (Box3.t -> bool) -> list ExtendedTriangle }.

(** A reference to an object of the store. *)
Abbreviation ref := nat (only parsing).

(** [BufferGeometry]: the [position] attribute and the attached BVH. *)
Record BufferGeometry := {
  position_attribute : list Vector3.t;
  boundsTree : option MeshBVH }.

(** The collider: a [Mesh] holding the merged geometry.  [matrixWorld] is
    a reference to its [Matrix4] object. *)
Record Mesh := {
  geometry : BufferGeometry;
  matrixWorld : ref;
  visible : bool }.

(** A node of the scene graph handed to [buildCollider]. *)
Inductive Object3D := Object3D_mk {
  isMesh : bool;
  name : string;
  object_visible : bool;
  positions : list Vector3.t;
  world : Matrix4.t;
  children : list Object3D }.

(** What the module writes to the console. *)
Inductive ConsoleEntry :=
| console_warn (msg : string)
| console_log (msg : string).

(** ** Program state *)

Record State := mkState {
  tempVector : Vector3.t;
  tempVector2 : Vector3.t;
  tempBox : Box3.t;
  tempMat : Matrix4.t;
  tempSegment : Line3.t;
  vectors : list Vector3.t;
  matrices : list Matrix4.t;
  console : list ConsoleEntry }.

Definition set_tempVector (v : Vector3.t) (s : State) : State :=
  mkState v (tempVector2 s) (tempBox s) (tempMat s) (tempSegment s) (vectors s) (matrices s) (console s).

Definition set_tempVector2 (v : Vector3.t) (s : State) : State :=
  mkState (tempVector s) v (tempBox s) (tempMat s) (tempSegment s) (vectors s) (matrices s) (console s).

Definition set_tempBox (b : Box3.t) (s : State) : State :=
  mkState (tempVector s) (tempVector2 s) b (tempMat s) (tempSegment s) (vectors s) (matrices s) (console s).

Definition set_tempMat (m : Matrix4.t) (s : State) : State :=
  mkState (tempVector s) (tempVector2 s) (tempBox s) m (tempSegment s) (vectors s) (matrices s) (console s).

Definition set_tempSegment (l : Line3.t) (s : State) : State :=
  mkState (tempVector s) (tempVector2 s) (tempBox s) (tempMat s) l (vectors s) (matrices s) (console s).

Definition set_vectors (h : list Vector3.t) (s : State) : State :=
  mkState (tempVector s) (tempVector2 s) (tempBox s) (tempMat s) (tempSegment s) h (matrices s) (console s).

Definition set_matrices (h : list Matrix4.t) (s : State) : State :=
  mkState (tempVector s) (tempVector2 s) (tempBox s) (tempMat s) (tempSegment s) (vectors s) h (console s).

Definition set_console (c : list ConsoleEntry) (s : State) : State :=
  mkState (tempVector s) (tempVector2 s) (tempBox s) (tempMat s) (tempSegment s) (vectors s) (matrices s) c.

(** The state after the module is loaded: the scratch objects as their
    constructors leave them, nothing else allocated. *)
Definition loaded : State :=
  mkState (Vector3.mk 0 0 0) (Vector3.mk 0 0 0)
          Box3.makeEmpty Matrix4.identity
          (Line3.mk (Vector3.mk 0 0 0) (Vector3.mk 0 0 0))
          [] [] [].

(** ** The monad *)

Definition M (A : Type) : Type := State -> option (A * State).

Definition ret {A} (a : A) : M A := fun s => Some (a, s).

Definition bind {A B} (m : M A) (k : A -> M B) : M B :=
  fun s => match m s with
           | Some (a, s') => k a s'
           | None => None
           end.

Declare Scope m_scope.
Delimit Scope m_scope with m.
Notation "x <- m ;; k" := (bind m (fun x => k))
  (at level 100, m at next level, right associativity) : m_scope.
Notation "m ;;; k" := (bind m (fun _ => k))
  (at level 100, k at level 200, right associativity) : m_scope.
Local Open Scope m_scope.

Definition get {A} (f : State -> A) : M A := fun s => Some (f s, s).

Definition update (f : State -> State) : M unit := fun s => Some (tt, f s).

(** Reading the [Vector3] a reference points to. *)
Definition deref (r : ref) : M Vector3.t :=
  fun s => match vectors s !! r with
           | Some v => Some (v, s)
           | None => None
           end.

(** Overwriting the [Vector3] a reference points to. *)
Definition assign (r : ref) (v : Vector3.t) : M unit :=
  fun s => match vectors s !! r with
           | Some _ => Some (tt, set_vectors (<[r := v]> (vectors s)) s)
           | None => None
           end.

(** [new Vector3(x, y, z)]: a fresh object, distinct from all others. *)
Definition new_Vector3 (v : Vector3.t) : M ref :=
  fun s => Some (length (vectors s), set_vectors (vectors s ++ [v]) s).

(** [v.clone()]. *)
Definition clone (r : ref) : M ref :=
  v <- deref r ;; new_Vector3 v.

(** Reading a [Matrix4] object. *)
Definition deref_matrix (r : ref) : M Matrix4.t :=
  fun s => match matrices s !! r with
           | Some m => Some (m, s)
           | None => None
           end.

(** [new Matrix4()]. *)
Definition new_Matrix4 : M ref :=
  fun s => Some (length (matrices s), set_matrices (matrices s ++ [Matrix4.identity]) s).

Definition warn (msg : string) : M unit :=
  update (fun s => set_console (console s ++ [console_warn msg]) s).

Definition log (msg : string) : M unit :=
  update (fun s => set_console (console s ++ [console_log msg]) s).

(** [shapecast({ intersectsBounds, intersectsTriangle })].  The triangle
    callback may change the state and the variables it captured ([acc]);
    a true return value stops the traversal. *)
Fixpoint visit {A} (intersectsTriangle : ExtendedTriangle -> A -> M (bool * A))
    (tris : list ExtendedTriangle) (acc : A) : M A :=
  match tris with
  | [] => ret acc
  | tri :: rest =>
      r <- intersectsTriangle tri acc ;;
      if fst r then ret (snd r) else visit intersectsTriangle rest (snd r)
  end.

Definition shapecast {A} (bvh : MeshBVH) (intersectsBounds : Box3.t -> bool)
    (intersectsTriangle : ExtendedTriangle -> A -> M (bool * A)) (acc : A) : M A :=
  visit intersectsTriangle (candidates bvh intersectsBounds) acc.

(** Overwriting an object in place with a function of its value. *)
Definition modify (r : ref) (f : Vector3.t -> Vector3.t) : M unit :=
  v <- deref r ;; assign r (f v).

Definition with_start (f : Vector3.t -> Vector3.t) (l : Line3.t) : Line3.t :=
  Line3.mk (f (Line3.start l)) (Line3.end_ l).

Definition with_end (f : Vector3.t -> Vector3.t) (l : Line3.t) : Line3.t :=
  Line3.mk (Line3.start l) (f (Line3.end_ l)).

Definition with_min (f : Vector3.t -> Vector3.t) (b : Box3.t) : Box3.t :=
  Box3.mk (f (Box3.min b)) (Box3.max b).

Definition with_max (f : Vector3.t -> Vector3.t) (b : Box3.t) : Box3.t :=
  Box3.mk (Box3.min b) (f (Box3.max b)).

(** ** Strings *)

(** What [toLowerCase] does to an ASCII character: [A]-[Z] go to [a]-[z],
    every other one stays. *)
Definition toLowerCase_ascii (c : ascii) : ascii :=
  let n := nat_of_ascii c in
  if (65 <=? n)%nat && (n <=? 90)%nat then ascii_of_nat (n + 32) else c.

(** The same, character by character. *)
Fixpoint lower_ascii (s : string) : string :=
  match s with
  | EmptyString => EmptyString
  | String c s' => String (toLowerCase_ascii c) (lower_ascii s')
  end.

(** A string of ASCII characters only: every byte is below 128. *)
Fixpoint ascii_only (s : string) : bool :=
  match s with
  | EmptyString => true
  | String c s' => (nat_of_ascii c <? 128)%nat && ascii_only s'
  end.

(** [String.prototype.toLowerCase], the engine's.  It lowers every cased
    letter of Unicode, some by their context, so it is not written out
    here.  Two facts about it are used: an ASCII string is lowered
    character by character, and a run of ASCII characters inside any
    string comes out lowered character by character, in one piece,
    whatever stands around it. *)
Class StringPrototype := {
  toLowerCase : string -> string;
  toLowerCase_ascii_only : forall s,
    ascii_only s = true -> toLowerCase s = lower_ascii s;
  toLowerCase_ascii_run : forall before run after,
    ascii_only run = true ->
    exists before' after',
      toLowerCase (before +:+ run +:+ after) = before' +:+ lower_ascii run +:+ after' }.

(** [s.startsWith(p)]. *)
Fixpoint startsWith (s p : string) {struct p} : bool :=
  match p, s with
  | EmptyString, _ => true
  | String _ _, EmptyString => false
  | String a p', String b s' => if ascii_dec a b then startsWith s' p' else false
  end.

(** [s.includes(p)]: [p] occurs in [s] at some position. *)
Fixpoint includes (s p : string) : bool :=
  startsWith s p ||
  match s with
  | EmptyString => false
  | String _ s' => includes s' p
  end.

(** ** The module *)

Record Settings := {
  radius : float;
  height : float;
  pushOutMultiplier : float }.

(** Lines 14-20. *)
Definition kartColliderSettings : Settings :=
  {| radius := 0.8; height := 1.0; pushOutMultiplier := 1.0 |}.

(** The object both resolvers return; [checkCollision] sets no [velocity]. *)
Record Result := {
  position : ref;
  velocity : option ref;
  collided : bool }.

(** [obj.traverse(callback)]: the object itself, then its children in order,
    each with its own subtree. *)
Fixpoint traverse {A} (callback : Object3D -> A -> A) (obj : Object3D) (acc : A) : A :=
  match obj with
  | Object3D_mk _ _ _ _ _ cs =>
      fold_left (fun a child => traverse callback child a) cs (callback obj acc)
  end.

Section Filter.
Context `{StringPrototype}.

(** Lines 32-50, the callback handed to [group.traverse]; [meshes] is the
    array it pushes to. *)
Definition collect (includeNames excludeNames : list string)
    (child : Object3D) (meshes : list Object3D) : list Object3D :=
  if negb (isMesh child) then meshes
  else
    let isExcluded :=
      existsb (fun n => includes (toLowerCase (name child)) (toLowerCase n)) excludeNames in
    if isExcluded then meshes
    else if (0 <? length includeNames)%nat then
      let isIncluded :=
        existsb (fun n => includes (toLowerCase (name child)) (toLowerCase n)) includeNames in
      if negb isIncluded then meshes else meshes ++ [child]
    else meshes ++ [child].

End Filter.

(** [`${n}`] for an array length. *)
Definition string_of_length (n : nat) : string :=
  NilEmpty.string_of_uint (Nat.to_uint n).

(** A call into a library that may throw: [None] is the exception. *)
Definition attempt {A} (r : option A) : M A :=
  fun s => match r with
           | Some a => Some (a, s)
           | None => None
           end.

Section KartCollision.

Context `{StringPrototype}.
(** [Matrix4.prototype.invert] of three.js. *)
Context (Matrix4_invert : Matrix4.t -> Matrix4.t).
(** [new StaticGeometryGenerator(meshes)] with [attributes = ["position"]],
    then [generate()]: the merged [position] attribute, or [None] when the
    generator throws.  What it merges is its own business: it walks the
    subtree of every mesh it is given and looks at their [visible] flags. *)
Context (StaticGeometryGenerator_generate : list Object3D -> option (list Vector3.t)).
(** [new MeshBVH(geometry)], or [None] when the constructor throws. *)
Context (MeshBVH_new : list Vector3.t -> option MeshBVH).

(** Lines 57-68 and 274-284, the same in both builders. *)
Definition build (meshes : list Object3D) : M (option Mesh) :=
  mergedGeometry <- attempt (StaticGeometryGenerator_generate meshes) ;;
  bvh <- attempt (MeshBVH_new mergedGeometry) ;;
  mw <- new_Matrix4 ;;
  let collider :=
    {| geometry := {| position_attribute := mergedGeometry; boundsTree := Some bvh |};
       matrixWorld := mw;
       visible := false |} in
  log ("KartCollision: Built collider from " +:+ string_of_length (length meshes) +:+ " meshes") ;;;
  ret (Some collider).

(** Lines 29-69.  An argument left out is [None]: the default applies. *)
Definition buildCollider (group : Object3D)
    (includeNames excludeNames : option (list string)) : M (option Mesh) :=
  let includeNames := default [] includeNames in
  let excludeNames := default ["ground"%string] excludeNames in
  let meshes := traverse (collect includeNames excludeNames) group [] in
  if Nat.eqb (length meshes) 0 then
    warn "KartCollision: No meshes found for collision" ;;;
    ret None
  else build meshes.

(** Lines 268-285.  [meshes] is [None] for [null] and [undefined]. *)
Definition buildColliderFromMeshes (meshes : option (list Object3D)) : M (option Mesh) :=
  match meshes with
  | None =>
      warn "KartCollision: No meshes provided" ;;;
      ret None
  | Some meshes =>
      if Nat.eqb (length meshes) 0 then
        warn "KartCollision: No meshes provided" ;;;
        ret None
      else build meshes
  end.

(** [!collider || !collider.geometry.boundsTree] is false: the collider and
    its BVH. *)
Definition usable (collider : option Mesh) : option (Mesh * MeshBVH) :=
  match collider with
  | None => None
  | Some c =>
      match boundsTree (geometry c) with
      | None => None
      | Some bvh => Some (c, bvh)
      end
  end.

(** [tempMat.copy(collider.matrixWorld).invert()]. *)
Definition load_inverse (c : Mesh) : M unit :=
  mw <- deref_matrix (matrixWorld c) ;;
  update (set_tempMat mw) ;;;
  update (fun s => set_tempMat (Matrix4_invert (tempMat s)) s).

(** Lines 125-146, the [intersectsTriangle] callback of [checkCollision];
    [collided] is [result.collided].  It returns nothing, so the traversal
    never stops early. *)
Definition capsule_intersectsTriangle (settings : Settings) (capsule_radius : float)
    (tri : ExtendedTriangle) (collided : bool) : M (bool * bool) :=
  seg <- get tempSegment ;;
  let '(distance, onTriangle, onSegment) := closestPointToSegment tri seg in
  update (set_tempVector onTriangle) ;;;
  update (set_tempVector2 onSegment) ;;;
  if (distance <? capsule_radius)%float then
    let depth := (capsule_radius - distance)%float in
    triPoint <- get tempVector ;;
    update (fun s => set_tempVector2 (Vector3.normalize (Vector3.sub (tempVector2 s) triPoint)) s) ;;;
    direction <- get tempVector2 ;;
    update (fun s => set_tempSegment
      (with_start (fun v => Vector3.addScaledVector v direction (depth * pushOutMultiplier settings)%float)
                  (tempSegment s)) s) ;;;
    update (fun s => set_tempSegment
      (with_end (fun v => Vector3.addScaledVector v direction (depth * pushOutMultiplier settings)%float)
                (tempSegment s)) s) ;;;
    ret (false, true)
  else ret (false, collided).

(** Lines 81-158.  [settings] is [None] when the argument is left out. *)
Definition checkCollision (currentPosition desiredPosition : ref)
    (collider : option Mesh) (settings : option Settings) : M Result :=
  let settings := default kartColliderSettings settings in
  match usable collider with
  | None =>
      p <- clone desiredPosition ;;
      ret {| position := p; velocity := None; collided := false |}
  | Some (c, bvh) =>
      result_position <- clone desiredPosition ;;
      let capsule_radius := radius settings in
      segment_start <- new_Vector3 (Vector3.mk 0 (radius settings) 0) ;;
      segment_end <- new_Vector3 (Vector3.mk 0 (height settings) 0) ;;
      load_inverse c ;;;
      s0 <- deref segment_start ;;
      e0 <- deref segment_end ;;
      update (set_tempSegment (Line3.mk s0 e0)) ;;;
      d <- deref desiredPosition ;;
      update (fun s => set_tempSegment
        (with_start (fun v => Vector3.applyMatrix4 (Vector3.add v d) (tempMat s)) (tempSegment s)) s) ;;;
      d <- deref desiredPosition ;;
      update (fun s => set_tempSegment
        (with_end (fun v => Vector3.applyMatrix4 (Vector3.add v d) (tempMat s)) (tempSegment s)) s) ;;;
      update (set_tempBox Box3.makeEmpty) ;;;
      update (fun s => set_tempBox (Box3.expandByPoint (tempBox s) (Line3.start (tempSegment s))) s) ;;;
      update (fun s => set_tempBox (Box3.expandByPoint (tempBox s) (Line3.end_ (tempSegment s))) s) ;;;
      update (fun s => set_tempBox (with_min (fun v => Vector3.addScalar v (- capsule_radius)%float) (tempBox s)) s) ;;;
      update (fun s => set_tempBox (with_max (fun v => Vector3.addScalar v capsule_radius) (tempBox s)) s) ;;;
      query <- get tempBox ;;
      result_collided <-
        shapecast bvh (fun box => Box3.intersectsBox box query)
                  (capsule_intersectsTriangle settings capsule_radius) false ;;
      (if result_collided : bool then
         s1 <- get (fun s => Line3.start (tempSegment s)) ;;
         newPosition <- new_Vector3 s1 ;;
         mw <- deref_matrix (matrixWorld c) ;;
         modify newPosition (fun v => Vector3.applyMatrix4 v mw) ;;;
         n <- deref newPosition ;;
         modify result_position (fun v => Vector3.mk (Vector3.x n) (Vector3.y v) (Vector3.z v)) ;;;
         n <- deref newPosition ;;
         modify result_position (fun v => Vector3.mk (Vector3.x v) (Vector3.y v) (Vector3.z n))
       else ret tt) ;;;
      ret {| position := result_position; velocity := None; collided := result_collided |}
  end.

(** Lines 200-217, the [intersectsTriangle] callback of
    [checkSimpleCollision].  The first argument of [addScaledVector]
    overwrites [normal] (it is [tempVector]) before the second one reads
    it. *)
Definition simple_intersectsTriangle (c : Mesh) (localPos result_velocity : ref) (r : float)
    (tri : ExtendedTriangle) (collided : bool) : M (bool * bool) :=
  update (set_tempVector (getNormal tri)) ;;;
  update (set_tempVector2 (getMidpoint tri)) ;;;
  lp <- deref localPos ;;
  triCenter <- get tempVector2 ;;
  let distToTri := Vector3.distanceTo lp triCenter in
  if (distToTri <? r * 2)%float then
    mw <- deref_matrix (matrixWorld c) ;;
    update (fun s => set_tempVector (Vector3.applyMatrix4 (tempVector s) mw) s) ;;;
    update (fun s => set_tempVector (Vector3.normalize (tempVector s)) s) ;;;
    v <- deref result_velocity ;;
    normal <- get tempVector ;;
    let scale := (- Vector3.dot v normal * 1.1)%float in
    modify result_velocity (fun v => Vector3.addScaledVector v normal scale) ;;;
    ret (false, true)
  else ret (false, collided).

(** Lines 170-222.  [r] is [None] when the argument is left out. *)
Definition checkSimpleCollision (pos vel : ref) (collider : option Mesh)
    (r : option float) : M Result :=
  let r := default 1.0%float r in
  match usable collider with
  | None =>
      p <- clone pos ;;
      v <- deref vel ;;
      modify p (fun a => Vector3.add a v) ;;;
      v' <- clone vel ;;
      ret {| position := p; velocity := Some v'; collided := false |}
  | Some (c, bvh) =>
      result_position <- clone pos ;;
      result_velocity <- clone vel ;;
      newPosition <- clone pos ;;
      v <- deref vel ;;
      modify newPosition (fun a => Vector3.add a v) ;;;
      load_inverse c ;;;
      localPos <- clone newPosition ;;
      inv <- get tempMat ;;
      modify localPos (fun a => Vector3.applyMatrix4 a inv) ;;;
      size <- new_Vector3 (Vector3.mk (r * 2) (r * 2) (r * 2)) ;;
      center <- deref localPos ;;
      sz <- deref size ;;
      update (set_tempBox (Box3.setFromCenterAndSize center sz)) ;;;
      query <- get tempBox ;;
      result_collided <-
        shapecast bvh (fun box => Box3.intersectsBox box query)
                  (simple_intersectsTriangle c localPos result_velocity r) false ;;
      v <- deref result_velocity ;;
      modify result_position (fun a => Vector3.add a v) ;;;
      ret {| position := result_position; velocity := Some result_velocity;
             collided := result_collided |}
  end.

End KartCollision.

(** ** The debug factories *)


Section Factories.

(** [new BoxGeometry(width, height, depth)]: its vertex positions. *)
Context (BoxGeometry : float -> float -> float -> list Vector3.t).
(** [new CylinderGeometry(radiusTop, radiusBottom, height, radialSegments)]. *)
Context (CylinderGeometry : float -> float -> float -> nat -> list Vector3.t).



End Factories.

(** ** What the resolvers compute, as functions of values *)

(** The segment moved by [s] along [direction]. *)
Definition translate (seg : Line3.t) (direction : Vector3.t) (s : float) : Line3.t :=
  Line3.mk (Vector3.addScaledVector (Line3.start seg) direction s)
           (Vector3.addScaledVector (Line3.end_ seg) direction s).

(** The correction a visited triangle makes to the in-flight segment and
    to the collided flag: when the triangle is closer to the segment than
    the radius, the segment moves by [depth * pushOutMultiplier] along the
    normalized vector from the triangle's closest point to the segment's,
    with [depth = radius - distance]. *)
Definition push_out (S : Settings) (acc : Line3.t * bool) (tri : ExtendedTriangle)
    : Line3.t * bool :=
  let '(distance, onTriangle, onSegment) := closestPointToSegment tri (fst acc) in
  if (distance <? radius S)%float then
    (translate (fst acc)
               (Vector3.normalize (Vector3.sub onSegment onTriangle))
               ((radius S - distance) * pushOutMultiplier S)%float,
     true)
  else acc.

(** The capsule segment at the desired position [d], in the local frame of
    a collider whose inverse world matrix is [inverse]. *)
Definition capsule_segment (S : Settings) (d : Vector3.t) (inverse : Matrix4.t) : Line3.t :=
  Line3.mk (Vector3.applyMatrix4 (Vector3.add (Vector3.mk 0 (radius S) 0) d) inverse)
           (Vector3.applyMatrix4 (Vector3.add (Vector3.mk 0 (height S) 0) d) inverse).

(** The box around a segment, grown by the radius on every side. *)
Definition query_box (S : Settings) (seg : Line3.t) : Box3.t :=
  with_max (fun v => Vector3.addScalar v (radius S))
    (with_min (fun v => Vector3.addScalar v (- radius S)%float)
       (Box3.expandByPoint (Box3.expandByPoint Box3.makeEmpty (Line3.start seg))
                           (Line3.end_ seg))).

(** The triangles [checkCollision] visits for a segment. *)
Definition capsule_candidates (S : Settings) (bvh : MeshBVH) (seg : Line3.t)
    : list ExtendedTriangle :=
  candidates bvh (fun box => Box3.intersectsBox box (query_box S seg)).

(** The segment and the flag after the traversal. *)
Definition resolve (S : Settings) (bvh : MeshBVH) (seg : Line3.t) : Line3.t * bool :=
  fold_left (push_out S) (capsule_candidates S bvh seg) (seg, false).

(** The position [checkCollision] returns. *)
Definition corrected (d : Vector3.t) (mw : Matrix4.t) (r : Line3.t * bool) : Vector3.t :=
  if snd r then
    let newPosition := Vector3.applyMatrix4 (Line3.start (fst r)) mw in
    Vector3.mk (Vector3.x newPosition) (Vector3.y d) (Vector3.z newPosition)
  else d.

(** The correction a visited triangle makes to the velocity and to the
    collided flag in [checkSimpleCollision]; [lp] is the tentative
    position in the collider's frame. *)
Definition deflect (mw : Matrix4.t) (lp : Vector3.t) (r : float)
    (acc : Vector3.t * bool) (tri : ExtendedTriangle) : Vector3.t * bool :=
  if (Vector3.distanceTo lp (getMidpoint tri) <? r * 2)%float then
    let normal := Vector3.normalize (Vector3.applyMatrix4 (getNormal tri) mw) in
    (Vector3.addScaledVector (fst acc) normal (- Vector3.dot (fst acc) normal * 1.1)%float,
     true)
  else acc.

(** The triangles [checkSimpleCollision] visits around [lp]. *)
Definition simple_candidates (bvh : MeshBVH) (lp : Vector3.t) (r : float)
    : list ExtendedTriangle :=
  candidates bvh (fun box => Box3.intersectsBox box
    (Box3.setFromCenterAndSize lp (Vector3.mk (r * 2) (r * 2) (r * 2)))).

(** ** Name filters, in the words of the specification *)

Section Names.
Context `{StringPrototype}.



(** Whether [collect] pushes [child]. *)
Definition kept (includeNames excludeNames : list string) (child : Object3D) : bool :=
  isMesh child &&
  negb (existsb (fun n => includes (toLowerCase (name child)) (toLowerCase n)) excludeNames) &&
  ((length includeNames =? 0)%nat ||
   existsb (fun n => includes (toLowerCase (name child)) (toLowerCase n)) includeNames).

End Names.

(** The objects of a subtree in the order [traverse] reaches them. *)
Fixpoint subtree (obj : Object3D) : list Object3D :=
  match obj with
  | Object3D_mk _ _ _ _ _ cs => obj :: flat_map subtree cs
  end.

(** Induction over a scene graph, with the hypothesis for every child. *)
Fixpoint Object3D_forall_ind (P : Object3D -> Prop)
    (step : forall m n v ps w cs, Forall P cs -> P (Object3D_mk m n v ps w cs))
    (obj : Object3D) : P obj :=
  match obj with
  | Object3D_mk m n v ps w cs =>
      step m n v ps w cs
        ((fix children_ok (l : list Object3D) : Forall P l :=
            match l with
            | [] => @List.Forall_nil _ P
            | c :: l' => @List.Forall_cons _ P c l' (Object3D_forall_ind P step c) (children_ok l')
            end) cs)
  end.

(** ** A small scene for the examples *)

Module Scene.
Local Open Scope float_scope.

(** The inverse of a translation matrix, on which [Matrix4.invert]
    agrees; every collider of the examples is placed by a translation. *)
Definition invert (m : Matrix4.t) : Matrix4.t :=
  Matrix4.makeTranslation (0 - Matrix4.e12 m) (0 - Matrix4.e13 m) (0 - Matrix4.e14 m).

(** The generator on the meshes of the examples, which are visible and
    have no children: every vertex in world space, mesh after mesh.  On
    any other list this stand-in gives up. *)
Definition generate (meshes : list Object3D) : option (list Vector3.t) :=
  if forallb (fun m => object_visible m && Nat.eqb (length (children m)) 0) meshes then
    Some (flat_map (fun m => map (fun p => Vector3.applyMatrix4 p (world m)) (positions m))
                   meshes)
  else None.

(** A large floor triangle in the plane [y = 0] around the origin, as a
    segment above it and well inside its outline sees it: the closest
    point of the segment is its lower end, the closest point of the
    triangle lies straight below. *)
Definition floor : ExtendedTriangle :=
  {| closestPointToSegment := fun seg =>
       let p := if Vector3.y (Line3.start seg) <=? Vector3.y (Line3.end_ seg)
                then Line3.start seg else Line3.end_ seg in
       (abs (Vector3.y p), Vector3.mk (Vector3.x p) 0 (Vector3.z p), p);
     getNormal := Vector3.mk 0 1 0;
     getMidpoint := Vector3.mk 0 0 0 |}.

(** A large wall triangle in the plane [x = 5] facing [-x], as a vertical
    segment in front of it sees it: start and end are equally far, the
    start is reported. *)
Definition wall : ExtendedTriangle :=
  {| closestPointToSegment := fun seg =>
       let p := Line3.start seg in
       (abs (5 - Vector3.x p), Vector3.mk 5 (Vector3.y p) (Vector3.z p), p);
     getNormal := Vector3.mk (-1) 0 0;
     getMidpoint := Vector3.mk 5 0.5 0 |}.

(** The corners of that wall triangle: its midpoint is [(5, 0.5, 0)] and
    [(c - b) x (a - b)] points along [-x]. *)
Definition wall_corners : list Vector3.t :=
  [ Vector3.mk 5 100.5 0; Vector3.mk 5 (-49.5) (-100); Vector3.mk 5 (-49.5) 100 ].

(** A BVH whose root is a single leaf holding [tri]. *)
Definition leaf (tri : ExtendedTriangle) : MeshBVH :=
  {| candidates := fun _ => [tri] |}.

Definition same_vector (a b : Vector3.t) : bool :=
  (Vector3.x a =? Vector3.x b) && (Vector3.y a =? Vector3.y b) && (Vector3.z a =? Vector3.z b).

Fixpoint same_vectors (l k : list Vector3.t) : bool :=
  match l, k with
  | [], [] => true
  | a :: l', b :: k' => same_vector a b && same_vectors l' k'
  | _, _ => false
  end.

(** The BVH constructor on the one geometry of the examples: over the
    corners of the wall it is the leaf holding the wall.  On any other
    geometry this stand-in gives up. *)
Definition bvh_of (positions : list Vector3.t) : option MeshBVH :=
  if same_vectors positions wall_corners then Some (leaf wall) else None.

(** The wall as a mesh of the scene graph. *)
Definition wall_mesh : Object3D :=
  Object3D_mk true "Wall_Left" true wall_corners Matrix4.identity [].

(** A collider over one triangle; its world matrix is object [0]. *)
Definition collider (tri : ExtendedTriangle) : Mesh :=
  {| geometry := {| position_attribute := []; boundsTree := Some (leaf tri) |};
     matrixWorld := 0%nat;
     visible := false |}.

(** A collider whose geometry has no BVH attached. *)
Definition bare : Mesh :=
  {| geometry := {| position_attribute := []; boundsTree := None |};
     matrixWorld := 0%nat;
     visible := false |}.

(** The state in which the collider's world matrix is [m] and the caller
    holds the vectors [vs]. *)
Definition state (m : Matrix4.t) (vs : list Vector3.t) : State :=
  set_matrices [m] (set_vectors vs loaded).

(** The kart wants to be at [x = 4.5], half a unit in front of the wall. *)
Definition at_wall : State := state Matrix4.identity [Vector3.mk 4.5 0 0].

(** The kart wants to be at [x = 1], four units in front of the wall. *)
Definition off_wall : State := state Matrix4.identity [Vector3.mk 1 0 0].

(** The kart wants to stand on the floor: its capsule segment starts one
    radius above it. *)
Definition on_floor : State := state Matrix4.identity [Vector3.mk 0 0 0].

(** The kart wants to be a tenth of a unit below the floor. *)
Definition sunk : State := state Matrix4.identity [Vector3.mk 0 (-0.1) 0].

(** The kart at [x = 4] moving by [0.5] towards the wall. *)
Definition moving : State :=
  state Matrix4.identity [Vector3.mk 4 0 0; Vector3.mk 0.5 0 0].

(** The same, with collider and kart both moved by [10] along [z]. *)
Definition moving_shifted : State :=
  state (Matrix4.makeTranslation 0 0 10) [Vector3.mk 4 0 10; Vector3.mk 0.5 0 0].

(** A scene graph: a group holding a ground mesh, a wall mesh and a light. *)
Definition track : Object3D :=
  Object3D_mk false "track" true [] Matrix4.identity
    [ Object3D_mk true "Ground_Plane" true [] Matrix4.identity [];
      wall_mesh;
      Object3D_mk false "Sun" true [] Matrix4.identity [] ].

(** A scene graph with nothing but ground in it. *)
Definition meadow : Object3D :=
  Object3D_mk false "meadow" true [] Matrix4.identity
    [ Object3D_mk true "GROUND" true [] Matrix4.identity [] ].

End Scene.

(** * Reasoning about runs *)

Arguments set_tempVector _ !s /.
Arguments set_tempVector2 _ !s /.
Arguments set_tempBox _ !s /.
Arguments set_tempMat _ !s /.
Arguments set_tempSegment _ !s /.
Arguments set_vectors _ !s /.
Arguments set_matrices _ !s /.
Arguments set_console _ !s /.

Lemma state_eta s :
  mkState (tempVector s) (tempVector2 s) (tempBox s) (tempMat s) (tempSegment s)
          (vectors s) (matrices s) (console s) = s.
Proof. by destruct s. Qed.

Lemma vectors_set_vectors h s : vectors (set_vectors h s) = h.
Proof. by destruct s. Qed.

Lemma matrices_set_vectors h s : matrices (set_vectors h s) = matrices s.
Proof. by destruct s. Qed.

Section store_lemmas.
Context {A : Type}.
Implicit Types (base extra : list A) (v : A).

Lemma lookup_old base extra r v :
  base !! r = Some v -> (base ++ extra) !! r = Some v.
Proof. apply lookup_app_l_Some. Qed.

Lemma lookup_new0 base extra : (base ++ extra) !! length base = extra !! 0.
Proof. rewrite lookup_app_r by lia. by rewrite Nat.sub_diag. Qed.

Lemma lookup_new base extra k : (base ++ extra) !! (length base + k) = extra !! k.
Proof. rewrite lookup_app_r by lia. f_equal. lia. Qed.

Lemma insert_new0 base extra v :
  <[length base := v]> (base ++ extra) = base ++ <[0 := v]> extra.
Proof. rewrite <- (Nat.add_0_r (length base)) at 1. apply insert_app_r. Qed.

Lemma insert_new base extra k v :
  <[length base + k := v]> (base ++ extra) = base ++ <[k := v]> extra.
Proof. apply insert_app_r. Qed.

Lemma alloc_more base extra v : (base ++ extra) ++ [v] = base ++ (extra ++ [v]).
Proof. by rewrite <- app_assoc. Qed.

Lemma length_more base extra : length (base ++ extra) = length base + length extra.
Proof. apply length_app. Qed.

End store_lemmas.

Lemma bind_assoc {A B C} (m : M A) (f : A -> M B) (g : B -> M C) s :
  bind (bind m f) g s = bind m (fun a => bind (f a) g) s.
Proof. unfold bind. by destruct (m s) as [[a s']|]. Qed.

Lemma bind_run {A B} (m : M A) (k : A -> M B) s a s' :
  m s = Some (a, s') -> bind m k s = k a s'.
Proof. unfold bind. by intros ->. Qed.

Lemma bind_deref {B} r (k : Vector3.t -> M B) s v :
  vectors s !! r = Some v -> bind (deref r) k s = k v s.
Proof. unfold bind, deref. by intros ->. Qed.

Lemma bind_assign {B} r v (k : unit -> M B) s w :
  vectors s !! r = Some w ->
  bind (assign r v) k s = k tt (set_vectors (<[r := v]> (vectors s)) s).
Proof. unfold bind, assign. by intros ->. Qed.

Lemma bind_deref_matrix {B} r (k : Matrix4.t -> M B) s m :
  matrices s !! r = Some m -> bind (deref_matrix r) k s = k m s.
Proof. unfold bind, deref_matrix. by intros ->. Qed.

(** Settling a lookup in a store that grew from a base. *)
Ltac lookup_tac :=
  cbn [vectors matrices];
  first
    [ eassumption
    | apply lookup_old; eassumption
    | rewrite lookup_new0; reflexivity
    | rewrite lookup_new; reflexivity ].

(** One step of symbolic execution at the head of a run. *)
Ltac run_step :=
  lazymatch goal with
  | |- context [bind (bind ?m ?f) ?g ?s] => rewrite (bind_assoc m f g s)
  | |- context [bind (ret ?a) ?k ?s] => change (bind (ret a) k s) with (k a s)
  | |- context [bind (get ?f) ?k ?s] => change (bind (get f) k s) with (k (f s) s)
  | |- context [bind (update ?f) ?k ?s] => change (bind (update f) k s) with (k tt (f s))
  | |- context [bind (new_Vector3 ?v) ?k ?s] =>
      change (bind (new_Vector3 v) k s)
        with (k (length (vectors s)) (set_vectors (vectors s ++ [v]) s))
  | |- context [bind (deref ?r) ?k ?s] => erewrite (bind_deref r k s) by lookup_tac
  | |- context [bind (assign ?r ?v) ?k ?s] => erewrite (bind_assign r v k s) by lookup_tac
  | |- context [bind (deref_matrix ?r) ?k ?s] =>
      erewrite (bind_deref_matrix r k s) by lookup_tac
  end;
  cbn beta iota;
  cbn [set_tempVector set_tempVector2 set_tempBox set_tempMat set_tempSegment
       set_vectors set_matrices set_console
       tempVector tempVector2 tempBox tempMat tempSegment vectors matrices console
       fst snd];
  rewrite ?alloc_more, ?length_more, ?insert_new0, ?insert_new;
  cbn [app length insert list_insert].

Ltac run := unfold clone, modify, warn, log; repeat run_step.

Section runs.
Context (Matrix4_invert : Matrix4.t -> Matrix4.t).

(** The capsule callback touches the scratch objects only, and leaves the
    segment and the flag as [push_out] says. *)
Lemma capsule_intersectsTriangle_run S tri c st :
  exists tv tv2,
    capsule_intersectsTriangle S (radius S) tri c st
    = Some ((false, snd (push_out S (tempSegment st, c) tri)),
            mkState tv tv2 (tempBox st) (tempMat st)
                    (fst (push_out S (tempSegment st, c) tri))
                    (vectors st) (matrices st) (console st)).
Proof.
  destruct st as [tv tv2 tb tm ts vs ms co].
  unfold capsule_intersectsTriangle, push_out. run_step. cbn [fst snd tempSegment].
  destruct (closestPointToSegment tri ts) as [[distance onTriangle] onSegment].
  do 2 run_step.
  destruct (distance <? radius S)%float.
  - run. eexists _, _. reflexivity.
  - eexists _, _. reflexivity.
Qed.

Lemma visit_capsule S tris : forall c st,
  exists tv tv2,
    visit (capsule_intersectsTriangle S (radius S)) tris c st
    = Some (snd (fold_left (push_out S) tris (tempSegment st, c)),
            mkState tv tv2 (tempBox st) (tempMat st)
                    (fst (fold_left (push_out S) tris (tempSegment st, c)))
                    (vectors st) (matrices st) (console st)).
Proof.
  induction tris as [|tri tris IH]; intros c st.
  - exists (tempVector st), (tempVector2 st). cbn. by rewrite state_eta.
  - destruct (capsule_intersectsTriangle_run S tri c st) as (tv & tv2 & E).
    cbn [visit fold_left]. rewrite (bind_run _ _ _ _ _ E). cbn [fst snd].
    destruct (IH (snd (push_out S (tempSegment st, c) tri))
                 (mkState tv tv2 (tempBox st) (tempMat st)
                    (fst (push_out S (tempSegment st, c) tri))
                    (vectors st) (matrices st) (console st))) as (tv' & tv2' & E').
    exists tv', tv2'. rewrite E'. cbn [tempSegment tempBox tempMat vectors matrices console].
    by rewrite <- surjective_pairing.
Qed.

(** A run of [checkCollision] against a collider with a BVH, in full. *)
Lemma checkCollision_run cur des c bvh S st d mw :
  boundsTree (geometry c) = Some bvh ->
  vectors st !! des = Some d ->
  matrices st !! matrixWorld c = Some mw ->
  let S' := default kartColliderSettings S in
  let r := resolve S' bvh (capsule_segment S' d (Matrix4_invert mw)) in
  exists tv tv2,
    checkCollision Matrix4_invert cur des (Some c) S st
    = Some ({| position := length (vectors st); velocity := None; collided := snd r |},
            mkState tv tv2
              (query_box S' (capsule_segment S' d (Matrix4_invert mw)))
              (Matrix4_invert mw) (fst r)
              (vectors st ++
                 corrected d mw r :: Vector3.mk 0 (radius S') 0 :: Vector3.mk 0 (height S') 0
                 :: (if snd r then [Vector3.applyMatrix4 (Line3.start (fst r)) mw] else []))
              (matrices st) (console st)).
Proof.
  intros Hb Hd Hm S' r.
  unfold checkCollision, usable, load_inverse. rewrite Hb. fold S'.
  destruct st as [tv tv2 tb tm ts vs ms co]. cbn [vectors matrices console] in *.
  run. unfold shapecast.
  match goal with
  | |- context [bind (visit ?f ?tris ?c) ?k ?s] =>
      destruct (visit_capsule S' tris c s) as (tv' & tv2' & E)
  end.
  rewrite (bind_run _ _ _ _ _ E). clear E.
  cbn [tempSegment tempBox tempMat vectors matrices console].
  change (fold_left (push_out S') _ _) with r.
  unfold corrected. destruct (snd r).
  - run. eexists _, _. reflexivity.
  - run. eexists _, _. reflexivity.
Qed.

(** A run of [checkCollision] without a usable collider. *)
Lemma checkCollision_fast cur des collider S st d :
  usable collider = None ->
  vectors st !! des = Some d ->
  checkCollision Matrix4_invert cur des collider S st
  = Some ({| position := length (vectors st); velocity := None; collided := false |},
          set_vectors (vectors st ++ [d]) st).
Proof.
  intros Hu Hd. unfold checkCollision. rewrite Hu. by run.
Qed.

(** The box callback overwrites the result velocity and the two scratch
    vectors, and leaves velocity and flag as [deflect] says. *)
Lemma simple_intersectsTriangle_run c localPos rv r tri col st lp v mw :
  vectors st !! localPos = Some lp ->
  vectors st !! rv = Some v ->
  matrices st !! matrixWorld c = Some mw ->
  exists tv tv2,
    simple_intersectsTriangle c localPos rv r tri col st
    = Some ((false, snd (deflect mw lp r (v, col) tri)),
            mkState tv tv2 (tempBox st) (tempMat st) (tempSegment st)
                    (<[rv := fst (deflect mw lp r (v, col) tri)]> (vectors st))
                    (matrices st) (console st)).
Proof.
  intros Hlp Hv Hm.
  destruct st as [tv tv2 tb tm ts vs ms co]. cbn [vectors matrices] in *.
  unfold simple_intersectsTriangle, deflect. do 4 run_step.
  destruct (Vector3.distanceTo lp (getMidpoint tri) <? r * 2)%float; cbn [fst snd].
  - run. eexists _, _. reflexivity.
  - rewrite (list_insert_id _ _ _ Hv). eexists _, _. reflexivity.
Qed.

Lemma visit_simple c localPos rv r lp mw tris : forall col v st,
  localPos <> rv ->
  vectors st !! localPos = Some lp ->
  vectors st !! rv = Some v ->
  matrices st !! matrixWorld c = Some mw ->
  exists tv tv2,
    visit (simple_intersectsTriangle c localPos rv r) tris col st
    = Some (snd (fold_left (deflect mw lp r) tris (v, col)),
            mkState tv tv2 (tempBox st) (tempMat st) (tempSegment st)
                    (<[rv := fst (fold_left (deflect mw lp r) tris (v, col))]> (vectors st))
                    (matrices st) (console st)).
Proof.
  induction tris as [|tri tris IH]; intros col v st Hne Hlp Hv Hm.
  - exists (tempVector st), (tempVector2 st). cbn.
    rewrite (list_insert_id _ _ _ Hv). by rewrite state_eta.
  - destruct (simple_intersectsTriangle_run c localPos rv r tri col st lp v mw Hlp Hv Hm)
      as (tv & tv2 & E).
    cbn [visit fold_left]. rewrite (bind_run _ _ _ _ _ E). cbn [fst snd]. clear E.
    set (a := deflect mw lp r (v, col) tri).
    edestruct (IH (snd a) (fst a)
                 (mkState tv tv2 (tempBox st) (tempMat st) (tempSegment st)
                    (<[rv := fst a]> (vectors st)) (matrices st) (console st)))
      as (tv' & tv2' & E'); cbn [vectors matrices]; try done.
    + by rewrite list_lookup_insert_ne.
    + apply list_lookup_insert_eq. by eapply lookup_lt_Some.
    + exists tv', tv2'. rewrite E'.
      cbn [tempSegment tempBox tempMat vectors matrices console].
      rewrite list_insert_insert_eq. by rewrite <- surjective_pairing.
Qed.

(** A run of [checkSimpleCollision] against a collider with a BVH, in full. *)
Lemma checkSimpleCollision_run pos vel c bvh r st p v mw :
  boundsTree (geometry c) = Some bvh ->
  vectors st !! pos = Some p ->
  vectors st !! vel = Some v ->
  matrices st !! matrixWorld c = Some mw ->
  let r' := default 1.0%float r in
  let lp := Vector3.applyMatrix4 (Vector3.add p v) (Matrix4_invert mw) in
  let size := Vector3.mk (r' * 2) (r' * 2) (r' * 2) in
  let a := fold_left (deflect mw lp r') (simple_candidates bvh lp r') (v, false) in
  exists tv tv2,
    checkSimpleCollision Matrix4_invert pos vel (Some c) r st
    = Some ({| position := length (vectors st);
               velocity := Some (length (vectors st) + 1);
               collided := snd a |},
            mkState tv tv2 (Box3.setFromCenterAndSize lp size) (Matrix4_invert mw)
              (tempSegment st)
              (vectors st ++ [Vector3.add p (fst a); fst a; Vector3.add p v; lp; size])
              (matrices st) (console st)).
Proof.
  intros Hb Hp Hv Hm r' lp size a.
  unfold checkSimpleCollision, usable, load_inverse. rewrite Hb. fold r'.
  destruct st as [tv tv2 tb tm ts vs ms co]. cbn [vectors matrices console tempSegment] in *.
  run. unfold shapecast.
  match goal with
  | |- context [bind (visit ?f ?tris ?col) ?k ?s] =>
      edestruct (visit_simple c (length vs + 3) (length vs + 1) r' lp mw tris col v s)
        as (tv' & tv2' & E)
  end.
  - lia.
  - cbn [vectors]. by rewrite lookup_new.
  - cbn [vectors]. by rewrite lookup_new.
  - exact Hm.
  - rewrite (bind_run _ _ _ _ _ E). clear E.
    cbn [tempSegment tempBox tempMat vectors matrices console].
    rewrite insert_new. cbn [insert list_insert].
    change (fold_left (deflect mw lp r') _ _) with a.
    run. eexists _, _. reflexivity.
Qed.

(** A run of [checkSimpleCollision] without a usable collider. *)
Lemma checkSimpleCollision_fast pos vel collider r st p v :
  usable collider = None ->
  vectors st !! pos = Some p ->
  vectors st !! vel = Some v ->
  checkSimpleCollision Matrix4_invert pos vel collider r st
  = Some ({| position := length (vectors st);
             velocity := Some (length (vectors st) + 1);
             collided := false |},
          set_vectors (vectors st ++ [Vector3.add p v; v]) st).
Proof.
  intros Hu Hp Hv. unfold checkSimpleCollision. rewrite Hu.
  destruct st as [tv tv2 tb tm ts vs ms co]. cbn [vectors] in *. by run.
Qed.

End runs.

(** * The resolvers *)

Lemma usable_Some collider c bvh :
  usable collider = Some (c, bvh) ->
  collider = Some c /\ boundsTree (geometry c) = Some bvh.
Proof.
  unfold usable. destruct collider as [c'|]; [|done].
  destruct (boundsTree (geometry c')) as [bvh'|] eqn:E; [|done].
  intros [= -> ->]. done.
Qed.

Lemma usable_None collider :
  collider = None \/ (exists c, collider = Some c /\ boundsTree (geometry c) = None) ->
  usable collider = None.
Proof.
  intros [->|(c & -> & H)]; [done|]. unfold usable. by rewrite H.
Qed.

(** Triangles that are not closer than the radius leave the segment and
    the flag alone. *)
Lemma push_out_far S seg tris :
  Forall (fun tri => (fst (fst (closestPointToSegment tri seg)) <? radius S)%float = false) tris ->
  fold_left (push_out S) tris (seg, false) = (seg, false).
Proof.
  induction 1 as [|tri tris Hfar _ IH]; [done|].
  cbn [fold_left]. unfold push_out at 2. cbn [fst].
  destruct (closestPointToSegment tri seg) as [[distance onTriangle] onSegment].
  cbn [fst] in Hfar. by rewrite Hfar.
Qed.

Section resolvers.
Context (Matrix4_invert : Matrix4.t -> Matrix4.t).

(** C5: without a collider, or with a collider whose geometry has no BVH,
    both resolvers return normally: [checkCollision] gives the desired
    position with [collided = false]; [checkSimpleCollision] gives
    [position + velocity], the velocity as it was, and [collided = false]. *)
Theorem no_collider_passes_through collider S r cur des pos vel st d p v :
  collider = None \/ (exists c, collider = Some c /\ boundsTree (geometry c) = None) ->
  vectors st !! des = Some d ->
  vectors st !! pos = Some p ->
  vectors st !! vel = Some v ->
  (exists res st',
     checkCollision Matrix4_invert cur des collider S st = Some (res, st') /\
     collided res = false /\
     vectors st' !! position res = Some d) /\
  (exists res st' rv,
     checkSimpleCollision Matrix4_invert pos vel collider r st = Some (res, st') /\
     collided res = false /\
     vectors st' !! position res = Some (Vector3.add p v) /\
     velocity res = Some rv /\
     vectors st' !! rv = Some v).
Proof.
  intros Hc%usable_None Hd Hp Hv.
  destruct st as [tv tv2 tb tm ts vs ms co]. cbn [vectors] in *. split.
  - eexists _, _. split; [by apply checkCollision_fast|].
    cbn [vectors set_vectors position collided].
    split; [done|]. by rewrite lookup_new0.
  - eexists _, _, _. split; [by eapply checkSimpleCollision_fast|].
    cbn [vectors set_vectors position velocity collided].
    split; [done|]. split; [by rewrite lookup_new0|].
    split; [reflexivity|]. by rewrite lookup_new.
Qed.

(** C2: the returned position has the [y] of the desired position,
    whatever the collider and whether or not a collision was recorded;
    when none was, [x] and [z] are the desired ones too. *)
Theorem y_is_desired_y cur des collider S st d :
  vectors st !! des = Some d ->
  (forall c, collider = Some c -> is_Some (matrices st !! matrixWorld c)) ->
  exists res st' p,
    checkCollision Matrix4_invert cur des collider S st = Some (res, st') /\
    vectors st' !! position res = Some p /\
    Vector3.y p = Vector3.y d /\
    (collided res = false -> p = d).
Proof.
  intros Hd Hm. destruct (usable collider) as [[c bvh]|] eqn:Hu.
  - apply usable_Some in Hu as [-> Hb]. destruct (Hm c eq_refl) as [mw Hmw].
    destruct (checkCollision_run Matrix4_invert cur des c bvh S st d mw Hb Hd Hmw)
      as (tv & tv2 & E).
    eexists _, _, _. split; [exact E|]. cbn [vectors position collided].
    rewrite lookup_new0. split; [reflexivity|].
    unfold corrected. split; [by destruct (snd _)|]. by intros ->.
  - destruct st as [tv tv2 tb tm ts vs ms co]. cbn [vectors] in *.
    eexists _, _, _. split; [by apply checkCollision_fast|].
    cbn [vectors set_vectors position collided]. by rewrite lookup_new0.
Qed.

(** C7: when no collision is recorded the result is [collided = false]
    with the desired position in all three components; and none is
    recorded when no visited triangle is closer to the capsule segment
    than the radius, in particular when no triangle is visited. *)
Theorem no_collision_keeps_desired cur des collider S st d :
  vectors st !! des = Some d ->
  (forall c, collider = Some c -> is_Some (matrices st !! matrixWorld c)) ->
  exists res st',
    checkCollision Matrix4_invert cur des collider S st = Some (res, st') /\
    (collided res = false -> vectors st' !! position res = Some d) /\
    (forall c bvh mw,
       usable collider = Some (c, bvh) ->
       matrices st !! matrixWorld c = Some mw ->
       let S' := default kartColliderSettings S in
       let seg := capsule_segment S' d (Matrix4_invert mw) in
       Forall (fun tri =>
                 (fst (fst (closestPointToSegment tri seg)) <? radius S')%float = false)
              (capsule_candidates S' bvh seg) ->
       collided res = false).
Proof.
  intros Hd Hm. destruct (usable collider) as [[c bvh]|] eqn:Hu.
  - apply usable_Some in Hu as [-> Hb]. destruct (Hm c eq_refl) as [mw Hmw].
    destruct (checkCollision_run Matrix4_invert cur des c bvh S st d mw Hb Hd Hmw)
      as (tv & tv2 & E).
    eexists _, _. split; [exact E|]. cbn [vectors position collided]. split.
    + intros Hr. rewrite lookup_new0. unfold corrected. by rewrite Hr.
    + intros c' bvh' mw' [= <- <-] Hmw' Hfar.
      assert (mw' = mw) as -> by congruence.
      unfold resolve. by rewrite (push_out_far _ _ _ Hfar).
  - destruct st as [tv tv2 tb tm ts vs ms co]. cbn [vectors] in *.
    eexists _, _. split; [by apply checkCollision_fast|].
    cbn [vectors set_vectors position collided].
    split; [by rewrite lookup_new0|]. done.
Qed.

(** C9: neither resolver changes a vector that existed before the call
    (the arguments among them) or any matrix (the collider's world matrix
    among them), and the vectors they return are objects that did not
    exist before the call, distinct from one another. *)
Theorem inputs_kept_results_fresh cur des pos vel collider S r st d p v :
  vectors st !! des = Some d ->
  vectors st !! pos = Some p ->
  vectors st !! vel = Some v ->
  (forall c, collider = Some c -> is_Some (matrices st !! matrixWorld c)) ->
  (exists res st',
     checkCollision Matrix4_invert cur des collider S st = Some (res, st') /\
     (forall i w, vectors st !! i = Some w -> vectors st' !! i = Some w) /\
     matrices st' = matrices st /\
     vectors st !! position res = None /\
     is_Some (vectors st' !! position res)) /\
  (exists res st' rv,
     checkSimpleCollision Matrix4_invert pos vel collider r st = Some (res, st') /\
     velocity res = Some rv /\
     (forall i w, vectors st !! i = Some w -> vectors st' !! i = Some w) /\
     matrices st' = matrices st /\
     vectors st !! position res = None /\
     is_Some (vectors st' !! position res) /\
     vectors st !! rv = None /\
     is_Some (vectors st' !! rv) /\
     position res <> rv).
Proof.
  intros Hd Hp Hv Hm.
  assert (vectors st !! length (vectors st) = None) as Hfresh0
    by (apply lookup_ge_None; lia).
  assert (vectors st !! (length (vectors st) + 1) = None) as Hfresh1
    by (apply lookup_ge_None; lia).
  destruct (usable collider) as [[c bvh]|] eqn:Hu.
  - apply usable_Some in Hu as [-> Hb]. destruct (Hm c eq_refl) as [mw Hmw]. split.
    + destruct (checkCollision_run Matrix4_invert cur des c bvh S st d mw Hb Hd Hmw)
        as (tv' & tv2' & E).
      eexists _, _. split; [exact E|]. cbn [vectors matrices position].
      split; [intros i w; apply lookup_old|]. split; [done|]. split; [done|].
      rewrite lookup_new0. by eexists.
    + destruct (checkSimpleCollision_run Matrix4_invert pos vel c bvh r st p v mw Hb Hp Hv Hmw)
        as (tv' & tv2' & E).
      eexists _, _, _. split; [exact E|]. cbn [vectors matrices position velocity].
      split; [done|]. split; [intros i w; apply lookup_old|].
      split; [done|]. split; [done|]. rewrite lookup_new0, lookup_new.
      split; [by eexists|]. split; [done|]. split; [by eexists|]. lia.
  - split.
    + eexists _, _. split; [by apply checkCollision_fast|].
      rewrite vectors_set_vectors, matrices_set_vectors. cbn [position].
      split; [intros i w; apply lookup_old|]. split; [done|]. split; [done|].
      rewrite lookup_new0. by eexists.
    + eexists _, _, _. split; [by eapply checkSimpleCollision_fast|].
      rewrite vectors_set_vectors, matrices_set_vectors. cbn [position velocity].
      split; [done|]. split; [intros i w; apply lookup_old|].
      split; [done|]. split; [done|]. rewrite lookup_new0, lookup_new.
      split; [by eexists|]. split; [done|]. split; [by eexists|]. lia.
Qed.

(** C4, as amended: when a call records no collision, the position it
    returns is the desired one, and resolving again from that position,
    as current and as desired position, records no collision either and
    returns the same position. *)
Theorem no_collision_is_stable cur des collider S st d res st' :
  vectors st !! des = Some d ->
  (forall c, collider = Some c -> is_Some (matrices st !! matrixWorld c)) ->
  checkCollision Matrix4_invert cur des collider S st = Some (res, st') ->
  collided res = false ->
  vectors st' !! position res = Some d /\
  exists res2 st'',
    checkCollision Matrix4_invert (position res) (position res) collider S st'
    = Some (res2, st'') /\
    collided res2 = false /\
    vectors st'' !! position res2 = Some d.
Proof.
  intros Hd Hm Hrun Hno.
  destruct (usable collider) as [[c bvh]|] eqn:Hu.
  - apply usable_Some in Hu as [-> Hb]. destruct (Hm c eq_refl) as [mw Hmw].
    destruct (checkCollision_run Matrix4_invert cur des c bvh S st d mw Hb Hd Hmw)
      as (tv' & tv2' & E).
    rewrite E in Hrun. injection Hrun as <- <-. cbn [collided position vectors] in *.
    unfold corrected. rewrite !Hno.
    split; [by rewrite lookup_new0|].
    match goal with
    | |- context [checkCollision _ _ _ _ _ ?s1] =>
        destruct (checkCollision_run Matrix4_invert (length (vectors st))
                    (length (vectors st)) c bvh S s1 d mw Hb) as (tv'' & tv2'' & E2);
        [cbn [vectors]; by rewrite lookup_new0 | exact Hmw |]
    end.
    eexists _, _. split; [exact E2|]. cbn [collided position vectors].
    split; [exact Hno|]. rewrite lookup_new0. unfold corrected. by rewrite Hno.
  - rewrite (checkCollision_fast Matrix4_invert cur des collider S st d Hu Hd) in Hrun.
    injection Hrun as <- <-. cbn [collided position].
    rewrite vectors_set_vectors.
    assert ((vectors st ++ [d]) !! length (vectors st) = Some d) as Hp
      by (by rewrite lookup_new0).
    split; [exact Hp|].
    eexists _, _. split.
    + apply checkCollision_fast; [done|]. by rewrite vectors_set_vectors.
    + rewrite !vectors_set_vectors. cbn [collided position]. split; [done|].
      by rewrite lookup_new0.
Qed.

(** C1: what a visited triangle does, and that the traversal of
    [checkCollision] is this done in turn.
    - A visit records a collision exactly when the closest distance
      between the triangle and the in-flight segment is below the radius
      (not at it); then both ends of the segment move along the normalized
      vector from the triangle's closest point to the segment's by
      [(radius - distance) * pushOutMultiplier]; otherwise the segment
      stays.  The caller's vectors and the matrices stay either way.
    - The next triangle is visited in the state the previous visit left.
    - [checkCollision] returns the flag of that traversal over the
      candidates of the shapecast, started from the capsule segment at the
      desired position, and leaves the segment where the traversal did. *)
Theorem visit_pushes_segment_out cur des c bvh S st d mw :
  boundsTree (geometry c) = Some bvh ->
  vectors st !! des = Some d ->
  matrices st !! matrixWorld c = Some mw ->
  let S' := default kartColliderSettings S in
  let seg := capsule_segment S' d (Matrix4_invert mw) in
  (forall tri flag s,
     exists s',
       capsule_intersectsTriangle S' (radius S') tri flag s
       = Some ((false,
                flag || (fst (fst (closestPointToSegment tri (tempSegment s))) <? radius S')%float),
               s') /\
       tempSegment s'
       = (let '(distance, onTriangle, onSegment) := closestPointToSegment tri (tempSegment s) in
          if (distance <? radius S')%float then
            translate (tempSegment s)
                      (Vector3.normalize (Vector3.sub onSegment onTriangle))
                      ((radius S' - distance) * pushOutMultiplier S')%float
          else tempSegment s) /\
       vectors s' = vectors s /\ matrices s' = matrices s) /\
  (forall tri rest flag s,
     exists flag' s',
       capsule_intersectsTriangle S' (radius S') tri flag s = Some ((false, flag'), s') /\
       visit (capsule_intersectsTriangle S' (radius S')) (tri :: rest) flag s
       = visit (capsule_intersectsTriangle S' (radius S')) rest flag' s') /\
  (exists res st' s,
     checkCollision Matrix4_invert cur des (Some c) S st = Some (res, st') /\
     visit (capsule_intersectsTriangle S' (radius S')) (capsule_candidates S' bvh seg) false
           (set_tempSegment seg st)
     = Some (collided res, s) /\
     tempSegment s = tempSegment st').
Proof.
  intros Hb Hd Hm S' seg. split; [|split].
  - intros tri flag s.
    destruct (capsule_intersectsTriangle_run S' tri flag s) as (tv & tv2 & E).
    eexists. split.
    + rewrite E. do 3 f_equal. unfold push_out. cbn [fst snd].
      destruct (closestPointToSegment tri (tempSegment s)) as [[distance onTriangle] onSegment].
      cbn [fst]. destruct (distance <? radius S')%float; cbn [snd];
        by rewrite ?orb_true_r, ?orb_false_r.
    + cbn [tempSegment vectors matrices]. split; [|done].
      unfold push_out. cbn [fst snd].
      destruct (closestPointToSegment tri (tempSegment s)) as [[distance onTriangle] onSegment].
      by destruct (distance <? radius S')%float.
  - intros tri rest flag s.
    destruct (capsule_intersectsTriangle_run S' tri flag s) as (tv & tv2 & E).
    eexists _, _. split; [exact E|]. cbn [visit]. by rewrite (bind_run _ _ _ _ _ E).
  - destruct (checkCollision_run Matrix4_invert cur des c bvh S st d mw Hb Hd Hm)
      as (tv & tv2 & E).
    destruct (visit_capsule S' (capsule_candidates S' bvh seg) false (set_tempSegment seg st))
      as (tv' & tv2' & E').
    eexists _, _, _. split; [exact E|]. split.
    + rewrite E'. destruct st; reflexivity.
    + destruct st; reflexivity.
Qed.

End resolvers.

(** * The builders *)

Lemma append_nil s : "" +:+ s = s.
Proof. reflexivity. Qed.

Lemma append_cons c a b : String c a +:+ b = String c (a +:+ b).
Proof. reflexivity. Qed.



Lemma lower_ascii_app a b : lower_ascii (a +:+ b) = lower_ascii a +:+ lower_ascii b.
Proof.
  induction a as [|c a IH]; [done|].
  rewrite append_cons. cbn [lower_ascii]. by rewrite IH, append_cons.
Qed.


Section names.
Context `{StringPrototype}.





Lemma collect_kept inc exc child meshes :
  collect inc exc child meshes = meshes ++ List.filter (kept inc exc) [child].
Proof.
  unfold collect, kept. cbn [List.filter].
  destruct (isMesh child); cbn; [|by rewrite app_nil_r].
  destruct (existsb _ exc); cbn; [by rewrite app_nil_r|].
  destruct inc as [|i inc]; [done|]. cbn [length Nat.ltb Nat.leb Nat.eqb orb].
  destruct (existsb _ (i :: inc)); cbn; [done|by rewrite app_nil_r].
Qed.

Lemma traverse_subtree {A} (callback : Object3D -> A -> A) obj : forall acc,
  traverse callback obj acc = fold_left (fun a o => callback o a) (subtree obj) acc.
Proof.
  induction obj as [m n v ps w cs IH] using Object3D_forall_ind. intros acc.
  cbn [traverse subtree fold_left].
  generalize (callback (Object3D_mk m n v ps w cs) acc). clear acc.
  induction IH as [|c cs Hc _ IHcs]; intros acc; [done|].
  cbn [fold_left flat_map]. rewrite fold_left_app, <- Hc. apply IHcs.
Qed.

Lemma collect_filter inc exc l : forall meshes,
  fold_left (fun a o => collect inc exc o a) l meshes
  = meshes ++ List.filter (kept inc exc) l.
Proof.
  induction l as [|o l IH]; intros meshes; cbn [fold_left List.filter].
  - by rewrite app_nil_r.
  - rewrite IH, collect_kept. cbn [List.filter].
    destruct (kept inc exc o); by rewrite <- app_assoc.
Qed.

Lemma traverse_collect inc exc group :
  traverse (collect inc exc) group [] = List.filter (kept inc exc) (subtree group).
Proof. by rewrite traverse_subtree, collect_filter. Qed.

End names.

Section builders.
Context `{StringPrototype}.
Context (StaticGeometryGenerator_generate : list Object3D -> option (list Vector3.t)).
Context (MeshBVH_new : list Vector3.t -> option MeshBVH).

Local Abbreviation buildCollider' := (buildCollider StaticGeometryGenerator_generate MeshBVH_new).
Local Abbreviation buildColliderFromMeshes' :=
  (buildColliderFromMeshes StaticGeometryGenerator_generate MeshBVH_new).
Local Abbreviation build' := (build StaticGeometryGenerator_generate MeshBVH_new).

(** C6: when the traversal of [buildCollider] keeps no mesh, and when
    [buildColliderFromMeshes] is given an empty array, the builder returns
    [null] after one warning; it allocates nothing and builds no
    collider. *)
Theorem no_meshes_no_collider group inc exc st :
  traverse (collect (default [] inc) (default ["ground"%string] exc)) group [] = [] ->
  buildCollider' group inc exc st
  = Some (None,
          set_console (console st ++ [console_warn "KartCollision: No meshes found for collision"]) st)
  /\
  buildColliderFromMeshes' (Some []) st
  = Some (None,
          set_console (console st ++ [console_warn "KartCollision: No meshes provided"]) st).
Proof.
  intros Hnone. unfold buildCollider, buildColliderFromMeshes. rewrite Hnone. done.
Qed.

(** C10: [buildColliderFromMeshes] given [null] or [undefined] returns
    [null] after the same warning as for an empty array. *)
Theorem missing_meshes_no_collider st :
  buildColliderFromMeshes' None st
  = Some (None,
          set_console (console st ++ [console_warn "KartCollision: No meshes provided"]) st)
  /\
  buildColliderFromMeshes' None st = buildColliderFromMeshes' (Some []) st.
Proof. done. Qed.


End builders.

(** * More about the resolvers *)

(** Once a collision is recorded the flag stays. *)
Lemma push_out_sticky S tris : forall seg,
  snd (fold_left (push_out S) tris (seg, true)) = true.
Proof.
  induction tris as [|tri tris IH]; intros seg; [done|].
  cbn [fold_left]. unfold push_out at 2. cbn [fst].
  destruct (closestPointToSegment tri seg) as [[distance onTriangle] onSegment].
  destruct (distance <? radius S)%float; apply IH.
Qed.

Lemma push_out_none S seg tris :
  snd (fold_left (push_out S) tris (seg, false)) = false ->
  Forall (fun tri => (fst (fst (closestPointToSegment tri seg)) <? radius S)%float = false) tris.
Proof.
  induction tris as [|tri tris IH]; [by constructor|].
  cbn [fold_left]. unfold push_out at 2. cbn [fst].
  destruct (closestPointToSegment tri seg) as [[distance onTriangle] onSegment] eqn:E.
  destruct (distance <? radius S)%float eqn:Hnear.
  - by rewrite push_out_sticky.
  - intros H. constructor; [by rewrite E|by apply IH].
Qed.

Lemma push_out_some S seg tris :
  snd (fold_left (push_out S) tris (seg, false)) = true ->
  Exists (fun tri => (fst (fst (closestPointToSegment tri seg)) <? radius S)%float = true) tris.
Proof.
  induction tris as [|tri tris IH]; [done|].
  cbn [fold_left]. unfold push_out at 2. cbn [fst].
  destruct (closestPointToSegment tri seg) as [[distance onTriangle] onSegment] eqn:E.
  destruct (distance <? radius S)%float eqn:Hnear.
  - intros _. apply Exists_cons_hd. by rewrite E.
  - intros H. apply Exists_cons_tl. by apply IH.
Qed.

(** The flag of the box resolver: set by the first triangle in range and
    never cleared; out of range the velocity stays. *)
Lemma deflect_flag mw lp r tris : forall v c,
  snd (fold_left (deflect mw lp r) tris (v, c))
  = c || existsb (fun tri => (Vector3.distanceTo lp (getMidpoint tri) <? r * 2)%float) tris.
Proof.
  induction tris as [|tri tris IH]; intros v c; cbn [fold_left existsb].
  - by rewrite orb_false_r.
  - unfold deflect at 2. cbn [fst].
    destruct (Vector3.distanceTo lp (getMidpoint tri) <? r * 2)%float.
    + rewrite IH. cbn. by rewrite orb_true_r.
    + by rewrite IH.
Qed.

Lemma deflect_out_of_range mw lp r tris : forall v c,
  existsb (fun tri => (Vector3.distanceTo lp (getMidpoint tri) <? r * 2)%float) tris = false ->
  fold_left (deflect mw lp r) tris (v, c) = (v, c).
Proof.
  induction tris as [|tri tris IH]; intros v c; cbn [fold_left existsb]; [done|].
  intros [H1 H2]%orb_false_iff. unfold deflect at 2. rewrite H1. by apply IH.
Qed.

Section more_resolvers.
Context (Matrix4_invert : Matrix4.t -> Matrix4.t).

(** X1: [checkCollision] reports a collision exactly when some visited
    triangle is closer than the radius to the capsule segment placed at
    the desired position: the segment only moves once a collision is
    recorded, so every triangle before the first hit is measured against
    the segment as placed. *)
Theorem collided_iff_some_triangle_near cur des c bvh S st d mw :
  boundsTree (geometry c) = Some bvh ->
  vectors st !! des = Some d ->
  matrices st !! matrixWorld c = Some mw ->
  let S' := default kartColliderSettings S in
  let seg := capsule_segment S' d (Matrix4_invert mw) in
  exists res st',
    checkCollision Matrix4_invert cur des (Some c) S st = Some (res, st') /\
    (collided res = true <->
     Exists (fun tri => (fst (fst (closestPointToSegment tri seg)) <? radius S')%float = true)
            (capsule_candidates S' bvh seg)).
Proof.
  intros Hb Hd Hm S' seg.
  destruct (checkCollision_run Matrix4_invert cur des c bvh S st d mw Hb Hd Hm)
    as (tv & tv2 & E).
  eexists _, _. split; [exact E|]. cbn [collided]. unfold resolve. fold S' seg.
  split.
  - apply push_out_some.
  - intros Hsome. destruct (snd (fold_left _ _ _)) eqn:Hflag; [done|].
    apply push_out_none in Hflag. apply Exists_exists in Hsome as (tri & Hin & Hnear).
    rewrite Forall_forall in Hflag. by rewrite (Hflag tri Hin) in Hnear.
Qed.

(** X2: what [checkSimpleCollision] returns, for every collider.  The
    returned position is the given position plus the returned velocity;
    without a collision the returned velocity is the given one; and with a
    BVH a collision is reported exactly when the midpoint of some visited
    triangle is closer than twice the radius to the tentative position in
    the collider's frame, whatever the velocity and the normals are. *)
Theorem simple_result pos vel collider r st p v :
  vectors st !! pos = Some p ->
  vectors st !! vel = Some v ->
  (forall c, collider = Some c -> is_Some (matrices st !! matrixWorld c)) ->
  exists res st' rv v',
    checkSimpleCollision Matrix4_invert pos vel collider r st = Some (res, st') /\
    velocity res = Some rv /\
    vectors st' !! rv = Some v' /\
    vectors st' !! position res = Some (Vector3.add p v') /\
    (collided res = false -> v' = v) /\
    (forall c bvh mw,
       usable collider = Some (c, bvh) ->
       matrices st !! matrixWorld c = Some mw ->
       let r' := default 1.0%float r in
       let lp := Vector3.applyMatrix4 (Vector3.add p v) (Matrix4_invert mw) in
       collided res = true <->
       Exists (fun tri => (Vector3.distanceTo lp (getMidpoint tri) <? r' * 2)%float = true)
              (simple_candidates bvh lp r')).
Proof.
  intros Hp Hv Hm. destruct (usable collider) as [[c bvh]|] eqn:Hu.
  - apply usable_Some in Hu as [-> Hb]. destruct (Hm c eq_refl) as [mw Hmw].
    destruct (checkSimpleCollision_run Matrix4_invert pos vel c bvh r st p v mw Hb Hp Hv Hmw)
      as (tv & tv2 & E).
    eexists _, _, _, _. split; [exact E|]. cbn [velocity position collided vectors].
    split; [reflexivity|]. rewrite lookup_new, lookup_new0. cbn.
    split; [reflexivity|]. split; [reflexivity|].
    rewrite deflect_flag. cbn [orb]. split.
    + intros Hno. by rewrite (deflect_out_of_range _ _ _ _ _ _ Hno).
    + intros c' bvh' mw' [= <- <-] Hmw'. assert (mw' = mw) as -> by congruence.
      rewrite existsb_exists, Exists_exists.
      split; intros (tri & Hin & H); exists tri; split; try done; by apply list_elem_of_In.
  - destruct st as [tv tv2 tb tm ts vs ms co]. cbn [vectors] in *.
    eexists _, _, _, _. split; [by eapply checkSimpleCollision_fast|].
    cbn [velocity position collided vectors set_vectors].
    split; [reflexivity|]. rewrite lookup_new, lookup_new0. cbn.
    split; [reflexivity|]. split; [reflexivity|]. split; done.
Qed.

(** X3: the scratch objects carry nothing from one call to the next, and
    [currentPosition] is not read.  Two calls, in any two states, that
    agree on the value of the desired position and on the collider's world
    matrix return the same flag and the same position; likewise for
    [checkSimpleCollision] and the values of position and velocity. *)
Theorem results_ignore_scratch cur1 cur2 des1 des2 pos1 pos2 vel1 vel2 collider S r
    st1 st2 d p v :
  vectors st1 !! des1 = Some d -> vectors st2 !! des2 = Some d ->
  vectors st1 !! pos1 = Some p -> vectors st2 !! pos2 = Some p ->
  vectors st1 !! vel1 = Some v -> vectors st2 !! vel2 = Some v ->
  (forall c, collider = Some c ->
     exists mw, matrices st1 !! matrixWorld c = Some mw /\
                matrices st2 !! matrixWorld c = Some mw) ->
  (exists res1 st1' res2 st2' q,
     checkCollision Matrix4_invert cur1 des1 collider S st1 = Some (res1, st1') /\
     checkCollision Matrix4_invert cur2 des2 collider S st2 = Some (res2, st2') /\
     collided res1 = collided res2 /\
     vectors st1' !! position res1 = Some q /\
     vectors st2' !! position res2 = Some q) /\
  (exists res1 st1' res2 st2' rv1 rv2 q w,
     checkSimpleCollision Matrix4_invert pos1 vel1 collider r st1 = Some (res1, st1') /\
     checkSimpleCollision Matrix4_invert pos2 vel2 collider r st2 = Some (res2, st2') /\
     collided res1 = collided res2 /\
     vectors st1' !! position res1 = Some q /\
     vectors st2' !! position res2 = Some q /\
     velocity res1 = Some rv1 /\ velocity res2 = Some rv2 /\
     vectors st1' !! rv1 = Some w /\
     vectors st2' !! rv2 = Some w).
Proof.
  intros Hd1 Hd2 Hp1 Hp2 Hv1 Hv2 Hm.
  destruct (usable collider) as [[c bvh]|] eqn:Hu.
  - apply usable_Some in Hu as [-> Hb]. destruct (Hm c eq_refl) as (mw & Hm1 & Hm2). split.
    + destruct (checkCollision_run Matrix4_invert cur1 des1 c bvh S st1 d mw Hb Hd1 Hm1)
        as (tv1 & tv1' & E1).
      destruct (checkCollision_run Matrix4_invert cur2 des2 c bvh S st2 d mw Hb Hd2 Hm2)
        as (tv2 & tv2' & E2).
      eexists _, _, _, _, _. split; [exact E1|]. split; [exact E2|].
      cbn [collided position vectors]. rewrite !lookup_new0. done.
    + destruct (checkSimpleCollision_run Matrix4_invert pos1 vel1 c bvh r st1 p v mw
                  Hb Hp1 Hv1 Hm1) as (tv1 & tv1' & E1).
      destruct (checkSimpleCollision_run Matrix4_invert pos2 vel2 c bvh r st2 p v mw
                  Hb Hp2 Hv2 Hm2) as (tv2 & tv2' & E2).
      eexists _, _, _, _, _, _, _, _. split; [exact E1|]. split; [exact E2|].
      cbn [collided position velocity vectors].
      split; [done|]. split; [by rewrite lookup_new0|]. split; [by rewrite lookup_new0|].
      split; [reflexivity|]. split; [reflexivity|]. split; by rewrite lookup_new.
  - destruct st1 as [a1 b1 c1 e1 f1 vs1 ms1 co1], st2 as [a2 b2 c2 e2 f2 vs2 ms2 co2].
    cbn [vectors] in *. split.
    + eexists _, _, _, _, _.
      split; [by apply checkCollision_fast|]. split; [by apply checkCollision_fast|].
      cbn [collided position vectors set_vectors]. rewrite !lookup_new0. done.
    + eexists _, _, _, _, _, _, _, _.
      split; [by eapply checkSimpleCollision_fast|].
      split; [by eapply checkSimpleCollision_fast|].
      cbn [collided position velocity vectors set_vectors].
      split; [done|]. split; [by rewrite lookup_new0|]. split; [by rewrite lookup_new0|].
      split; [reflexivity|]. split; [reflexivity|]. split; by rewrite lookup_new.
Qed.

End more_resolvers.

(** * More about the builders *)

Lemma startsWith_empty s : startsWith s "" = true.
Proof. by destruct s. Qed.

Lemma includes_empty s : includes s "" = true.
Proof. destruct s; cbn [includes]; by rewrite startsWith_empty. Qed.

Lemma filter_ext_kept (f g : Object3D -> bool) l :
  (forall o, f o = g o) -> List.filter f l = List.filter g l.
Proof. intros H. induction l as [|o l IH]; cbn; [done|]. by rewrite H, IH. Qed.

Lemma filter_none (f : Object3D -> bool) l :
  (forall o, f o = false) -> List.filter f l = [].
Proof. intros H. induction l as [|o l IH]; cbn; [done|]. by rewrite H. Qed.

(** Whether a collision is recorded, triangle by triangle. *)
Lemma resolve_collides S bvh seg :
  snd (resolve S bvh seg) = true <->
  Exists (fun tri => (fst (fst (closestPointToSegment tri seg)) <? radius S)%float = true)
         (capsule_candidates S bvh seg).
Proof.
  unfold resolve. split.
  - apply push_out_some.
  - intros Hsome. destruct (snd (fold_left _ _ _)) eqn:Hflag; [done|].
    apply push_out_none in Hflag. apply Exists_exists in Hsome as (tri & Hin & Hnear).
    rewrite Forall_forall in Hflag. by rewrite (Hflag tri Hin) in Hnear.
Qed.

Section more_builders.
Context `{StringPrototype}.
Context (Matrix4_invert : Matrix4.t -> Matrix4.t).
Context (StaticGeometryGenerator_generate : list Object3D -> option (list Vector3.t)).
Context (MeshBVH_new : list Vector3.t -> option MeshBVH).

Local Abbreviation buildCollider' := (buildCollider StaticGeometryGenerator_generate MeshBVH_new).
Local Abbreviation buildColliderFromMeshes' :=
  (buildColliderFromMeshes StaticGeometryGenerator_generate MeshBVH_new).
Local Abbreviation build' := (build StaticGeometryGenerator_generate MeshBVH_new).

(** The filter reads its entries through [toLowerCase] only. *)
Lemma some_lowered n l :
  existsb (fun e => includes (toLowerCase n) (toLowerCase e)) l
  = existsb (includes (toLowerCase n)) (map toLowerCase l).
Proof. induction l as [|e l IH]; cbn; [done|]. by rewrite IH. Qed.

Lemma kept_lowered inc1 inc2 exc1 exc2 child :
  map toLowerCase inc1 = map toLowerCase inc2 ->
  map toLowerCase exc1 = map toLowerCase exc2 ->
  kept inc1 exc1 child = kept inc2 exc2 child.
Proof.
  intros Hi He. unfold kept. rewrite !some_lowered, Hi, He.
  by rewrite <- (length_map toLowerCase inc1), Hi, length_map.
Qed.

Lemma toLowerCase_empty : toLowerCase "" = ""%string.
Proof. by rewrite toLowerCase_ascii_only. Qed.

Lemma kept_empty_exclude inc exc o : In ""%string exc -> kept inc exc o = false.
Proof.
  intros Hin. unfold kept.
  assert (existsb (fun n => includes (toLowerCase (name o)) (toLowerCase n)) exc = true)
    as ->; [|by rewrite andb_false_r].
  apply existsb_exists. exists ""%string. split; [done|].
  rewrite toLowerCase_empty. apply includes_empty.
Qed.

Lemma kept_empty_include inc exc o : In ""%string inc -> kept inc exc o = kept [] exc o.
Proof.
  intros Hin. unfold kept. f_equal. cbn [length Nat.eqb orb].
  assert (existsb (fun n => includes (toLowerCase (name o)) (toLowerCase n)) inc = true)
    as ->; [|by rewrite orb_true_r].
  apply existsb_exists. exists ""%string. split; [done|].
  rewrite toLowerCase_empty. apply includes_empty.
Qed.

(** What a call of a builder on [meshes] in [st] comes to.  It throws
    ([None]) only with meshes to merge, when the generator throws on them
    or the BVH constructor throws on what the generator merged.  It
    returns [null] only without meshes, after one warning and nothing
    else.  It returns a collider only with meshes: the generator was
    handed exactly [meshes] and the BVH is built over what it merged; the
    collider is invisible and has a world matrix of its own at the
    identity; every earlier matrix and every vector is as it was, and one
    line with the number of meshes is logged. *)
Definition built (meshes : list Object3D) (st : State)
    (outcome : option (option Mesh * State)) : Prop :=
  match outcome with
  | None =>
      meshes <> [] /\
      (StaticGeometryGenerator_generate meshes = None \/
       exists merged,
         StaticGeometryGenerator_generate meshes = Some merged /\
         MeshBVH_new merged = None)
  | Some (None, st') =>
      meshes = [] /\
      exists msg, st' = set_console (console st ++ [console_warn msg]) st
  | Some (Some c, st') =>
      meshes <> [] /\
      (exists merged bvh,
         StaticGeometryGenerator_generate meshes = Some merged /\
         MeshBVH_new merged = Some bvh /\
         geometry c = {| position_attribute := merged; boundsTree := Some bvh |}) /\
      visible c = false /\
      matrices st !! matrixWorld c = None /\
      matrices st' !! matrixWorld c = Some Matrix4.identity /\
      (forall i m, matrices st !! i = Some m -> matrices st' !! i = Some m) /\
      vectors st' = vectors st /\
      console st'
      = console st ++
        [console_log ("KartCollision: Built collider from " +:+
                      string_of_length (length meshes) +:+ " meshes")]
  end.

Lemma build_built meshes st : meshes <> [] -> built meshes st (build' meshes st).
Proof.
  intros Hne. destruct st as [tv tv2 tb tm ts vs ms co].
  unfold build, bind, attempt.
  destruct (StaticGeometryGenerator_generate meshes) as [merged|] eqn:Hg;
    [|split; [done|by left]].
  destruct (MeshBVH_new merged) as [bvh|] eqn:Hb;
    [|split; [done|right; by exists merged]].
  unfold new_Matrix4, log, update, ret.
  cbn [set_matrices set_console matrices console built
       vectors geometry boundsTree visible matrixWorld].
  split; [done|]. split; [by exists merged, bvh|]. split; [done|].
  split; [apply lookup_ge_None; lia|]. split; [by rewrite lookup_new0|].
  split; [intros i m; apply lookup_old|done].
Qed.


Lemma buildCollider_built group inc exc st :
  built (List.filter (kept (default [] inc) (default ["ground"%string] exc)) (subtree group))
        st (buildCollider' group inc exc st).
Proof.
  unfold buildCollider. rewrite traverse_collect.
  destruct (List.filter _ _) as [|m meshes'] eqn:Hm.
  - split; [done|]. by eexists.
  - by apply build_built.
Qed.

Lemma buildColliderFromMeshes_built given st :
  built (default [] given) st (buildColliderFromMeshes' given st).
Proof.
  destruct given as [[|m given]|]; cbn [default].
  - split; [done|]. by eexists.
  - by apply build_built.
  - split; [done|]. by eexists.
Qed.

(** X4: the three outcomes of the builders.  [buildCollider] on the
    meshes its traversal keeps, and [buildColliderFromMeshes] on the
    array it is given (none when it is missing), return [null] exactly
    when there is no mesh, throw exactly when there are meshes and the
    generator or the BVH constructor throws on them, and otherwise return
    an invisible collider with the BVH over what the generator merged
    from exactly those meshes and a new world matrix at the identity.
    Neither builder changes a vector or an existing matrix. *)
Theorem builders_outcome group inc exc given st :
  let meshes :=
    List.filter (kept (default [] inc) (default ["ground"%string] exc)) (subtree group) in
  built meshes st (buildCollider' group inc exc st) /\
  built (default [] given) st (buildColliderFromMeshes' given st) /\
  (buildCollider' group inc exc st = None <->
   meshes <> [] /\
   forall merged, StaticGeometryGenerator_generate meshes = Some merged ->
                  MeshBVH_new merged = None) /\
  ((exists st', buildCollider' group inc exc st = Some (None, st')) <-> meshes = []).
Proof.
  intros meshes.
  pose proof (buildCollider_built group inc exc st) as Hb. fold meshes in Hb.
  split; [exact Hb|]. split; [apply buildColliderFromMeshes_built|].
  destruct (buildCollider' group inc exc st) as [[[c|] st']|];
    cbn [built] in Hb.
  - destruct Hb as (Hne & (merged & bvh & Hg & Hbvh & _) & _). split; split.
    + done.
    + intros [_ Hthrow]. specialize (Hthrow merged Hg). congruence.
    + by intros [st'' [=]].
    + done.
  - destruct Hb as [Hnil _]. split; split.
    + done.
    + by intros [Hne _].
    + done.
    + intros _. by exists st'.
  - destruct Hb as [Hne Hthrow]. split; split.
    + intros _. split; [done|]. intros merged Hg.
      destruct Hthrow as [Hnone|(merged' & Hg' & Hnone)]; congruence.
    + done.
    + by intros [st'' [=]].
    + done.
Qed.

(** X5: a collider that either builder returned is accepted by
    [checkCollision] in the state the builder left: the collider has a
    BVH, the call returns, the returned position has the desired [y], and
    a collision is reported exactly when a triangle of that BVH which the
    shapecast visits is closer than the radius to the capsule segment,
    taken in the frame of the inverted identity. *)
Theorem built_collider_resolves group inc exc given cur des S st d c st1 :
  buildCollider' group inc exc st = Some (Some c, st1) \/
  buildColliderFromMeshes' given st = Some (Some c, st1) ->
  vectors st !! des = Some d ->
  let S' := default kartColliderSettings S in
  let seg := capsule_segment S' d (Matrix4_invert Matrix4.identity) in
  exists bvh res st2 p,
    boundsTree (geometry c) = Some bvh /\
    checkCollision Matrix4_invert cur des (Some c) S st1 = Some (res, st2) /\
    vectors st2 !! position res = Some p /\
    Vector3.y p = Vector3.y d /\
    (collided res = true <->
     Exists (fun tri => (fst (fst (closestPointToSegment tri seg)) <? radius S')%float = true)
            (capsule_candidates S' bvh seg)).
Proof.
  intros Hbuilt Hd S' seg.
  assert (exists meshes, built meshes st (Some (Some c, st1))) as [meshes Hb].
  { destruct Hbuilt as [E|E]; eexists; rewrite <- E.
    - apply buildCollider_built.
    - apply buildColliderFromMeshes_built. }
  destruct Hb as (_ & (merged & bvh & _ & _ & Hgeo) & _ & _ & Hmw & _ & Hv & _).
  assert (boundsTree (geometry c) = Some bvh) as Hbvh by (by rewrite Hgeo).
  assert (vectors st1 !! des = Some d) as Hd1 by (by rewrite Hv).
  destruct (checkCollision_run Matrix4_invert cur des c bvh S st1 d Matrix4.identity
              Hbvh Hd1 Hmw) as (tv & tv2 & E).
  eexists bvh, _, _, _. split; [exact Hbvh|]. split; [exact E|].
  cbn [vectors position collided]. rewrite lookup_new0.
  split; [reflexivity|]. split.
  - unfold corrected. by destruct (snd _).
  - apply resolve_collides.
Qed.

(** X6: the empty string is a substring of every name.  An exclude list
    holding it drops every mesh, so [buildCollider] returns [null] after
    its warning; an include list holding it restricts nothing. *)
Theorem empty_entry_matches_all group inc exc st :
  (forall excluded, In ""%string excluded ->
   buildCollider' group inc (Some excluded) st
   = Some (None,
           set_console (console st ++
             [console_warn "KartCollision: No meshes found for collision"]) st)) /\
  (forall names, In ""%string names ->
   buildCollider' group (Some names) exc st = buildCollider' group None exc st).
Proof.
  split.
  - intros excluded Hin. unfold buildCollider. rewrite traverse_collect.
    erewrite filter_none; [reflexivity|]. intros o. by apply kept_empty_exclude.
  - intros names Hin. unfold buildCollider. rewrite !traverse_collect.
    erewrite filter_ext_kept; [reflexivity|]. intros o. by apply kept_empty_include.
Qed.

(** X7: the letter case of the filter entries does not matter, whatever
    letters they are written in.  Two include lists and two exclude lists
    that agree entry by entry once the engine has lowered them make
    [buildCollider] do the same. *)
Theorem entries_case_is_irrelevant group inc1 inc2 exc1 exc2 st :
  map toLowerCase inc1 = map toLowerCase inc2 ->
  map toLowerCase exc1 = map toLowerCase exc2 ->
  buildCollider StaticGeometryGenerator_generate MeshBVH_new group (Some inc1) (Some exc1) st
  = buildCollider StaticGeometryGenerator_generate MeshBVH_new group (Some inc2) (Some exc2) st.
Proof.
  intros Hi He. unfold buildCollider. rewrite !traverse_collect. cbn [default].
  erewrite filter_ext_kept; [reflexivity|]. intros o. by apply kept_lowered.
Qed.

End more_builders.

(** * The factories and the builder *)

Section factories_and_builder.
Context `{StringPrototype}.
Context (BoxGeometry : float -> float -> float -> list Vector3.t).
Context (CylinderGeometry : float -> float -> float -> nat -> list Vector3.t).
Context (StaticGeometryGenerator_generate : list Object3D -> option (list Vector3.t)).
Context (MeshBVH_new : list Vector3.t -> option MeshBVH).



End factories_and_builder.

(** * The statements at work on the scene *)

(** The names of the examples are ASCII.  On such names the engine's
    [toLowerCase] is [lower_ascii], which stands for it from here on; it
    has the two properties asked of the engine. *)
Lemma lower_ascii_run before run after :
  ascii_only run = true ->
  exists before' after',
    lower_ascii (before +:+ run +:+ after) = before' +:+ lower_ascii run +:+ after'.
Proof.
  intros _. exists (lower_ascii before), (lower_ascii after).
  by rewrite !lower_ascii_app.
Qed.

Definition ascii_names : StringPrototype :=
  {| toLowerCase := lower_ascii;
     toLowerCase_ascii_only := fun s _ => eq_refl;
     toLowerCase_ascii_run := lower_ascii_run |}.

Existing Instance ascii_names.

(** C4 as stated fails: with the default settings ([pushOutMultiplier] is
    [1]) the kart sunk into the floor collides and is pushed straight up;
    only [x] and [z] of the correction are kept, so the returned position
    is the desired one again, and resolving from it collides again. *)
Lemma corrected_position_collides_again :
  (1 <=? pushOutMultiplier kartColliderSettings)%float = true /\
  exists res st' res2 st'',
    checkCollision Scene.invert 0 0 (Some (Scene.collider Scene.floor)) None Scene.sunk
    = Some (res, st') /\
    collided res = true /\
    checkCollision Scene.invert (position res) (position res)
                   (Some (Scene.collider Scene.floor)) None st'
    = Some (res2, st'') /\
    collided res2 = true.
Proof.
  split; [reflexivity|].
  eexists _, _, _, _.
  split; [vm_compute; reflexivity|]. split; [reflexivity|].
  split; [vm_compute; reflexivity|]. reflexivity.
Qed.

(** Rounding alone can do the same.  Half a unit in front of the wall the
    kart is pushed back to [x = 4.2]; in binary64 [5 - 4.2] is below [0.8],
    so the corrected position collides again, although the push-out was
    horizontal and is kept in full. *)
Example wall_correction_collides_again :
  exists res st' res2 st'',
    checkCollision Scene.invert 0 0 (Some (Scene.collider Scene.wall)) None Scene.at_wall
    = Some (res, st') /\
    collided res = true /\
    vectors st' !! position res = Some (Vector3.mk 4.2 0 0) /\
    checkCollision Scene.invert (position res) (position res)
                   (Some (Scene.collider Scene.wall)) None st'
    = Some (res2, st'') /\
    collided res2 = true.
Proof.
  eexists _, _, _, _.
  split; [vm_compute; reflexivity|]. split; [reflexivity|]. split; [reflexivity|].
  split; [vm_compute; reflexivity|]. reflexivity.
Qed.

(** The boundary: a kart standing on the floor has its segment exactly one
    radius above it, and no collision is recorded. *)
Example distance_equal_to_radius_is_no_collision :
  fst (fst (closestPointToSegment Scene.floor
              (capsule_segment kartColliderSettings (Vector3.mk 0 0 0)
                 (Scene.invert Matrix4.identity))))
  = radius kartColliderSettings /\
  exists res st',
    checkCollision Scene.invert 0 0 (Some (Scene.collider Scene.floor)) None Scene.on_floor
    = Some (res, st') /\
    collided res = false /\
    vectors st' !! position res = Some (Vector3.mk 0 0 0).
Proof.
  split; [reflexivity|].
  eexists _, _. split; [vm_compute; reflexivity|]. split; reflexivity.
Qed.

(** The default filters on a small scene: the ground mesh is dropped
    whatever the case of its name, the light is no mesh, the wall stays. *)
Example track_keeps_the_wall :
  map name (traverse (collect [] ["ground"%string]) Scene.track []) = ["Wall_Left"%string] /\
  includes (toLowerCase "Ground_Plane") (toLowerCase "ground") = true.
Proof. split; reflexivity. Qed.

(** C3 fails on a collider that is not at the origin.  In [Scene.moving]
    the kart moves by [0.5] straight into the wall, whose normal is
    [(-1, 0, 0)]: the returned velocity has [0.05] along the normal, the
    inward part removed and a tenth more.  In [Scene.moving_shifted] the
    collider and the kart are both [10] further along [z], the same
    situation: the callback turns the normal into a point of the world
    ([applyMatrix4] adds the translation), pushes along [(-1, 0, 10)]
    normalized, and the returned velocity still has [-0.49...] along the
    wall's normal although [collided] is true. *)
Lemma shifted_collider_keeps_inward_velocity :
  Vector3.dot (Vector3.mk 0.5 0 0) (getNormal Scene.wall) = (-0.5)%float /\
  (exists res st' rv,
     checkSimpleCollision Scene.invert 0 1 (Some (Scene.collider Scene.wall)) None Scene.moving
     = Some (res, st') /\
     collided res = true /\
     velocity res = Some rv /\
     vectors st' !! rv = Some (Vector3.mk (-0.050000000000000044) 0 0) /\
     Vector3.dot (Vector3.mk (-0.050000000000000044) 0 0) (getNormal Scene.wall)
     = 0.050000000000000044%float) /\
  (exists res st' rv,
     checkSimpleCollision Scene.invert 0 1 (Some (Scene.collider Scene.wall)) None
                          Scene.moving_shifted
     = Some (res, st') /\
     collided res = true /\
     velocity res = Some rv /\
     vectors st' !! rv = Some (Vector3.mk 0.49455445544554455 0 0.054455445544554462) /\
     Vector3.dot (Vector3.mk 0.49455445544554455 0 0.054455445544554462) (getNormal Scene.wall)
     = (-0.49455445544554455)%float).
Proof.
  split; [reflexivity|]. split.
  - eexists _, _, _. split; [vm_compute; reflexivity|].
    split; [reflexivity|]. split; [reflexivity|]. split; reflexivity.
  - eexists _, _, _. split; [vm_compute; reflexivity|].
    split; [reflexivity|]. split; [reflexivity|]. split; reflexivity.
Qed.

(** [no_collider_passes_through] on a collider without BVH. *)
Lemma no_collider_passes_through_witness :
  (Some Scene.bare = None \/
   exists c, Some Scene.bare = Some c /\ boundsTree (geometry c) = None) /\
  vectors Scene.moving !! 0 = Some (Vector3.mk 4 0 0) /\
  vectors Scene.moving !! 1 = Some (Vector3.mk 0.5 0 0) /\
  (exists res st',
     checkCollision Scene.invert 0 0 (Some Scene.bare) None Scene.moving = Some (res, st') /\
     collided res = false /\
     vectors st' !! position res = Some (Vector3.mk 4 0 0)) /\
  (exists res st' rv,
     checkSimpleCollision Scene.invert 0 1 (Some Scene.bare) None Scene.moving
     = Some (res, st') /\
     collided res = false /\
     vectors st' !! position res = Some (Vector3.add (Vector3.mk 4 0 0) (Vector3.mk 0.5 0 0)) /\
     velocity res = Some rv /\
     vectors st' !! rv = Some (Vector3.mk 0.5 0 0)).
Proof.
  assert (Some Scene.bare = None \/
          exists c, Some Scene.bare = Some c /\ boundsTree (geometry c) = None) as H1
    by (right; exists Scene.bare; split; reflexivity).
  assert (vectors Scene.moving !! 0 = Some (Vector3.mk 4 0 0)) as H2 by reflexivity.
  assert (vectors Scene.moving !! 1 = Some (Vector3.mk 0.5 0 0)) as H3 by reflexivity.
  split; [exact H1|]. split; [exact H2|]. split; [exact H3|].
  exact (no_collider_passes_through Scene.invert (Some Scene.bare) None None 0 0 0 1
           Scene.moving _ _ _ H1 H2 H2 H3).
Defined.

(** [y_is_desired_y] on the kart sunk into the floor. *)
Lemma y_is_desired_y_witness :
  vectors Scene.sunk !! 0 = Some (Vector3.mk 0 (-0.1) 0) /\
  (forall c, Some (Scene.collider Scene.floor) = Some c ->
             is_Some (matrices Scene.sunk !! matrixWorld c)) /\
  exists res st' p,
    checkCollision Scene.invert 0 0 (Some (Scene.collider Scene.floor)) None Scene.sunk
    = Some (res, st') /\
    vectors st' !! position res = Some p /\
    Vector3.y p = Vector3.y (Vector3.mk 0 (-0.1) 0) /\
    (collided res = false -> p = Vector3.mk 0 (-0.1) 0).
Proof.
  assert (vectors Scene.sunk !! 0 = Some (Vector3.mk 0 (-0.1) 0)) as H1 by reflexivity.
  assert (forall c, Some (Scene.collider Scene.floor) = Some c ->
                    is_Some (matrices Scene.sunk !! matrixWorld c)) as H2
    by (intros c [= <-]; exists Matrix4.identity; reflexivity).
  split; [exact H1|]. split; [exact H2|].
  exact (y_is_desired_y Scene.invert 0 0 (Some (Scene.collider Scene.floor)) None
           Scene.sunk _ H1 H2).
Defined.

(** [no_collision_keeps_desired] four units in front of the wall. *)
Lemma no_collision_keeps_desired_witness :
  vectors Scene.off_wall !! 0 = Some (Vector3.mk 1 0 0) /\
  (forall c, Some (Scene.collider Scene.wall) = Some c ->
             is_Some (matrices Scene.off_wall !! matrixWorld c)) /\
  exists res st',
    checkCollision Scene.invert 0 0 (Some (Scene.collider Scene.wall)) None Scene.off_wall
    = Some (res, st') /\
    collided res = false /\
    vectors st' !! position res = Some (Vector3.mk 1 0 0).
Proof.
  assert (vectors Scene.off_wall !! 0 = Some (Vector3.mk 1 0 0)) as H1 by reflexivity.
  assert (forall c, Some (Scene.collider Scene.wall) = Some c ->
                    is_Some (matrices Scene.off_wall !! matrixWorld c)) as H2
    by (intros c [= <-]; exists Matrix4.identity; reflexivity).
  split; [exact H1|]. split; [exact H2|].
  destruct (no_collision_keeps_desired Scene.invert 0 0 (Some (Scene.collider Scene.wall))
              None Scene.off_wall _ H1 H2) as (res & st' & E & Hsame & Hfar).
  assert (collided res = false) as Hno.
  { apply (Hfar (Scene.collider Scene.wall) (Scene.leaf Scene.wall) Matrix4.identity);
      [reflexivity|reflexivity|].
    repeat constructor. }
  exists res, st'. split; [exact E|]. split; [exact Hno|]. exact (Hsame Hno).
Defined.

(** [inputs_kept_results_fresh] on the kart moving towards the wall. *)
Lemma inputs_kept_results_fresh_witness :
  vectors Scene.moving !! 0 = Some (Vector3.mk 4 0 0) /\
  vectors Scene.moving !! 1 = Some (Vector3.mk 0.5 0 0) /\
  (forall c, Some (Scene.collider Scene.wall) = Some c ->
             is_Some (matrices Scene.moving !! matrixWorld c)) /\
  (exists res st',
     checkCollision Scene.invert 0 0 (Some (Scene.collider Scene.wall)) None Scene.moving
     = Some (res, st') /\
     (forall i w, vectors Scene.moving !! i = Some w -> vectors st' !! i = Some w) /\
     matrices st' = matrices Scene.moving /\
     vectors Scene.moving !! position res = None /\
     is_Some (vectors st' !! position res)) /\
  (exists res st' rv,
     checkSimpleCollision Scene.invert 0 1 (Some (Scene.collider Scene.wall)) None Scene.moving
     = Some (res, st') /\
     velocity res = Some rv /\
     (forall i w, vectors Scene.moving !! i = Some w -> vectors st' !! i = Some w) /\
     matrices st' = matrices Scene.moving /\
     vectors Scene.moving !! position res = None /\
     is_Some (vectors st' !! position res) /\
     vectors Scene.moving !! rv = None /\
     is_Some (vectors st' !! rv) /\
     position res <> rv).
Proof.
  assert (vectors Scene.moving !! 0 = Some (Vector3.mk 4 0 0)) as H1 by reflexivity.
  assert (vectors Scene.moving !! 1 = Some (Vector3.mk 0.5 0 0)) as H2 by reflexivity.
  assert (forall c, Some (Scene.collider Scene.wall) = Some c ->
                    is_Some (matrices Scene.moving !! matrixWorld c)) as H3
    by (intros c [= <-]; exists Matrix4.identity; reflexivity).
  split; [exact H1|]. split; [exact H2|]. split; [exact H3|].
  exact (inputs_kept_results_fresh Scene.invert 0 0 0 1 (Some (Scene.collider Scene.wall))
           None None Scene.moving _ _ _ H1 H1 H2 H3).
Defined.

(** [no_collision_is_stable] four units in front of the wall. *)
Lemma no_collision_is_stable_witness :
  vectors Scene.off_wall !! 0 = Some (Vector3.mk 1 0 0) /\
  (forall c, Some (Scene.collider Scene.wall) = Some c ->
             is_Some (matrices Scene.off_wall !! matrixWorld c)) /\
  exists res st',
    checkCollision Scene.invert 0 0 (Some (Scene.collider Scene.wall)) None Scene.off_wall
    = Some (res, st') /\
    collided res = false /\
    vectors st' !! position res = Some (Vector3.mk 1 0 0) /\
    exists res2 st'',
      checkCollision Scene.invert (position res) (position res)
                     (Some (Scene.collider Scene.wall)) None st'
      = Some (res2, st'') /\
      collided res2 = false /\
      vectors st'' !! position res2 = Some (Vector3.mk 1 0 0).
Proof.
  assert (vectors Scene.off_wall !! 0 = Some (Vector3.mk 1 0 0)) as H1 by reflexivity.
  assert (forall c, Some (Scene.collider Scene.wall) = Some c ->
                    is_Some (matrices Scene.off_wall !! matrixWorld c)) as H2
    by (intros c [= <-]; exists Matrix4.identity; reflexivity).
  split; [exact H1|]. split; [exact H2|].
  destruct (checkCollision Scene.invert 0 0 (Some (Scene.collider Scene.wall)) None
              Scene.off_wall) as [[res st']|] eqn:E.
  - assert (collided res = false) as Hno
      by (pose proof E as E'; vm_compute in E'; injection E' as <- _; reflexivity).
    exists res, st'. split; [reflexivity|]. split; [exact Hno|].
    exact (no_collision_is_stable Scene.invert 0 0 (Some (Scene.collider Scene.wall)) None
             Scene.off_wall _ res st' H1 H2 E Hno).
  - vm_compute in E. discriminate E.
Defined.

(** [visit_pushes_segment_out] half a unit in front of the wall. *)
Lemma visit_pushes_segment_out_witness :
  boundsTree (geometry (Scene.collider Scene.wall)) = Some (Scene.leaf Scene.wall) /\
  vectors Scene.at_wall !! 0 = Some (Vector3.mk 4.5 0 0) /\
  matrices Scene.at_wall !! matrixWorld (Scene.collider Scene.wall) = Some Matrix4.identity /\
  exists res st' s,
    checkCollision Scene.invert 0 0 (Some (Scene.collider Scene.wall)) None Scene.at_wall
    = Some (res, st') /\
    visit (capsule_intersectsTriangle kartColliderSettings (radius kartColliderSettings))
          (capsule_candidates kartColliderSettings (Scene.leaf Scene.wall)
             (capsule_segment kartColliderSettings (Vector3.mk 4.5 0 0)
                (Scene.invert Matrix4.identity)))
          false
          (set_tempSegment
             (capsule_segment kartColliderSettings (Vector3.mk 4.5 0 0)
                (Scene.invert Matrix4.identity))
             Scene.at_wall)
    = Some (collided res, s) /\
    tempSegment s = tempSegment st'.
Proof.
  assert (boundsTree (geometry (Scene.collider Scene.wall)) = Some (Scene.leaf Scene.wall))
    as H1 by reflexivity.
  assert (vectors Scene.at_wall !! 0 = Some (Vector3.mk 4.5 0 0)) as H2 by reflexivity.
  assert (matrices Scene.at_wall !! matrixWorld (Scene.collider Scene.wall)
          = Some Matrix4.identity) as H3 by reflexivity.
  split; [exact H1|]. split; [exact H2|]. split; [exact H3|].
  exact (proj2 (proj2 (visit_pushes_segment_out Scene.invert 0 0 (Scene.collider Scene.wall)
                         (Scene.leaf Scene.wall) None Scene.at_wall _ _ H1 H2 H3))).
Defined.

(** [no_meshes_no_collider] on a scene with nothing but ground. *)
Lemma no_meshes_no_collider_witness :
  traverse (collect (default [] None) (default ["ground"%string] None)) Scene.meadow [] = [] /\
  buildCollider Scene.generate Scene.bvh_of Scene.meadow None None loaded
  = Some (None,
          set_console (console loaded ++
            [console_warn "KartCollision: No meshes found for collision"]) loaded) /\
  buildColliderFromMeshes Scene.generate Scene.bvh_of (Some []) loaded
  = Some (None,
          set_console (console loaded ++ [console_warn "KartCollision: No meshes provided"])
                      loaded).
Proof.
  assert (traverse (collect (default [] None) (default ["ground"%string] None))
                   Scene.meadow [] = []) as H1 by reflexivity.
  split; [exact H1|].
  exact (no_meshes_no_collider Scene.generate Scene.bvh_of Scene.meadow None None
           loaded H1).
Defined.

(** * The further statements at work *)

Module Yard.
Local Open Scope float_scope.

(** The eight corners of a box around the origin, standing for the
    vertex positions of a [BoxGeometry]. *)
Definition box (width height depth : float) : list Vector3.t :=
  let x := width / 2 in
  let y := height / 2 in
  let z := depth / 2 in
  [ Vector3.mk (- x) (- y) (- z); Vector3.mk x (- y) (- z);
    Vector3.mk (- x) y (- z); Vector3.mk x y (- z);
    Vector3.mk (- x) (- y) z; Vector3.mk x (- y) z;
    Vector3.mk (- x) y z; Vector3.mk x y z ].




(** The state of [Scene.moving] after other calls: position and velocity
    are held the other way round, and the scratch objects are used. *)
Definition used : State :=
  set_tempVector (Vector3.mk 9 9 9)
    (set_tempSegment (Line3.mk (Vector3.mk 1 2 3) (Vector3.mk 4 5 6))
       (Scene.state Matrix4.identity [Vector3.mk 0.5 0 0; Vector3.mk 4 0 0])).

End Yard.

(** [collided_iff_some_triangle_near] half a unit in front of the wall. *)
Lemma collided_iff_some_triangle_near_witness :
  boundsTree (geometry (Scene.collider Scene.wall)) = Some (Scene.leaf Scene.wall) /\
  vectors Scene.at_wall !! 0 = Some (Vector3.mk 4.5 0 0) /\
  matrices Scene.at_wall !! matrixWorld (Scene.collider Scene.wall) = Some Matrix4.identity /\
  exists res st',
    checkCollision Scene.invert 0 0 (Some (Scene.collider Scene.wall)) None Scene.at_wall
    = Some (res, st') /\
    (collided res = true <->
     Exists (fun tri =>
               (fst (fst (closestPointToSegment tri
                            (capsule_segment kartColliderSettings (Vector3.mk 4.5 0 0)
                               (Scene.invert Matrix4.identity))))
                <? radius kartColliderSettings)%float = true)
            (capsule_candidates kartColliderSettings (Scene.leaf Scene.wall)
               (capsule_segment kartColliderSettings (Vector3.mk 4.5 0 0)
                  (Scene.invert Matrix4.identity)))).
Proof.
  assert (boundsTree (geometry (Scene.collider Scene.wall)) = Some (Scene.leaf Scene.wall))
    as H1 by reflexivity.
  assert (vectors Scene.at_wall !! 0 = Some (Vector3.mk 4.5 0 0)) as H2 by reflexivity.
  assert (matrices Scene.at_wall !! matrixWorld (Scene.collider Scene.wall)
          = Some Matrix4.identity) as H3 by reflexivity.
  split; [exact H1|]. split; [exact H2|]. split; [exact H3|].
  exact (collided_iff_some_triangle_near Scene.invert 0 0 (Scene.collider Scene.wall)
           (Scene.leaf Scene.wall) None Scene.at_wall _ _ H1 H2 H3).
Defined.

(** [simple_result] on the kart moving towards the wall. *)
Lemma simple_result_witness :
  vectors Scene.moving !! 0 = Some (Vector3.mk 4 0 0) /\
  vectors Scene.moving !! 1 = Some (Vector3.mk 0.5 0 0) /\
  (forall c, Some (Scene.collider Scene.wall) = Some c ->
             is_Some (matrices Scene.moving !! matrixWorld c)) /\
  exists res st' rv v',
    checkSimpleCollision Scene.invert 0 1 (Some (Scene.collider Scene.wall)) None Scene.moving
    = Some (res, st') /\
    velocity res = Some rv /\
    vectors st' !! rv = Some v' /\
    vectors st' !! position res = Some (Vector3.add (Vector3.mk 4 0 0) v') /\
    (collided res = false -> v' = Vector3.mk 0.5 0 0).
Proof.
  assert (vectors Scene.moving !! 0 = Some (Vector3.mk 4 0 0)) as H1 by reflexivity.
  assert (vectors Scene.moving !! 1 = Some (Vector3.mk 0.5 0 0)) as H2 by reflexivity.
  assert (forall c, Some (Scene.collider Scene.wall) = Some c ->
                    is_Some (matrices Scene.moving !! matrixWorld c)) as H3
    by (intros c [= <-]; exists Matrix4.identity; reflexivity).
  split; [exact H1|]. split; [exact H2|]. split; [exact H3|].
  destruct (simple_result Scene.invert 0 1 (Some (Scene.collider Scene.wall)) None
              Scene.moving _ _ H1 H2 H3) as (res & st' & rv & v' & E & Hv & Hl & Hp & Hno & _).
  exists res, st', rv, v'. done.
Defined.

(** [results_ignore_scratch] on [Scene.moving] and [Yard.used]. *)
Lemma results_ignore_scratch_witness :
  vectors Scene.moving !! 0 = Some (Vector3.mk 4 0 0) /\
  vectors Yard.used !! 1 = Some (Vector3.mk 4 0 0) /\
  vectors Scene.moving !! 1 = Some (Vector3.mk 0.5 0 0) /\
  vectors Yard.used !! 0 = Some (Vector3.mk 0.5 0 0) /\
  exists res1 st1' res2 st2' q,
    checkCollision Scene.invert 1 0 (Some (Scene.collider Scene.wall)) None Scene.moving
    = Some (res1, st1') /\
    checkCollision Scene.invert 0 1 (Some (Scene.collider Scene.wall)) None Yard.used
    = Some (res2, st2') /\
    collided res1 = collided res2 /\
    vectors st1' !! position res1 = Some q /\
    vectors st2' !! position res2 = Some q.
Proof.
  assert (vectors Scene.moving !! 0 = Some (Vector3.mk 4 0 0)) as H1 by reflexivity.
  assert (vectors Yard.used !! 1 = Some (Vector3.mk 4 0 0)) as H2 by reflexivity.
  assert (vectors Scene.moving !! 1 = Some (Vector3.mk 0.5 0 0)) as H3 by reflexivity.
  assert (vectors Yard.used !! 0 = Some (Vector3.mk 0.5 0 0)) as H4 by reflexivity.
  assert (forall c, Some (Scene.collider Scene.wall) = Some c ->
            exists mw, matrices Scene.moving !! matrixWorld c = Some mw /\
                       matrices Yard.used !! matrixWorld c = Some mw) as H5
    by (intros c [= <-]; exists Matrix4.identity; split; reflexivity).
  split; [exact H1|]. split; [exact H2|]. split; [exact H3|]. split; [exact H4|].
  exact (proj1 (results_ignore_scratch Scene.invert 1 0 0 1 0 1 1 0
                  (Some (Scene.collider Scene.wall)) None None Scene.moving Yard.used
                  _ _ _ H1 H2 H1 H2 H3 H4 H5)).
Defined.

(** [built_collider_resolves] on the collider built from the wall mesh,
    with the kart half a unit in front of the wall: the builder returns a
    collider, and the resolver reports the collision. *)
Lemma built_collider_resolves_witness :
  exists c st1,
    buildColliderFromMeshes Scene.generate Scene.bvh_of (Some [Scene.wall_mesh]) Scene.at_wall
    = Some (Some c, st1) /\
    vectors Scene.at_wall !! 0 = Some (Vector3.mk 4.5 0 0) /\
    exists bvh res st2 p,
      boundsTree (geometry c) = Some bvh /\
      checkCollision Scene.invert 0 0 (Some c) None st1 = Some (res, st2) /\
      vectors st2 !! position res = Some p /\
      Vector3.y p = Vector3.y (Vector3.mk 4.5 0 0) /\
      (collided res = true <->
       Exists (fun tri =>
                 (fst (fst (closestPointToSegment tri
                              (capsule_segment kartColliderSettings (Vector3.mk 4.5 0 0)
                                 (Scene.invert Matrix4.identity))))
                  <? radius kartColliderSettings)%float = true)
              (capsule_candidates kartColliderSettings bvh
                 (capsule_segment kartColliderSettings (Vector3.mk 4.5 0 0)
                    (Scene.invert Matrix4.identity)))) /\
      collided res = true.
Proof.
  eassert (buildColliderFromMeshes Scene.generate Scene.bvh_of (Some [Scene.wall_mesh])
             Scene.at_wall = Some (Some _, _)) as H1 by (vm_compute; reflexivity).
  assert (vectors Scene.at_wall !! 0 = Some (Vector3.mk 4.5 0 0)) as H2 by reflexivity.
  eexists _, _. split; [exact H1|]. split; [exact H2|].
  destruct (built_collider_resolves Scene.invert Scene.generate Scene.bvh_of
              Scene.track None None (Some [Scene.wall_mesh]) 0 0 None Scene.at_wall
              _ _ _ (or_intror H1) H2)
    as (bvh & res & st2 & p & Hbvh & E & Hp & Hy & Hiff).
  exists bvh, res, st2, p.
  split; [exact Hbvh|]. split; [exact E|]. split; [exact Hp|]. split; [exact Hy|].
  split; [exact Hiff|].
  apply Hiff. injection Hbvh as <-. apply Exists_cons_hd. reflexivity.
Defined.

(** [entries_case_is_irrelevant] on the track. *)
Lemma entries_case_is_irrelevant_witness :
  map toLowerCase ["Wall"%string] = map toLowerCase ["WALL"%string] /\
  map toLowerCase ["ground"%string] = map toLowerCase ["GrounD"%string] /\
  buildCollider Scene.generate Scene.bvh_of Scene.track
    (Some ["Wall"%string]) (Some ["ground"%string]) loaded
  = buildCollider Scene.generate Scene.bvh_of Scene.track
      (Some ["WALL"%string]) (Some ["GrounD"%string]) loaded.
Proof.
  assert (map toLowerCase ["Wall"%string] = map toLowerCase ["WALL"%string]) as H1
    by reflexivity.
  assert (map toLowerCase ["ground"%string] = map toLowerCase ["GrounD"%string]) as H2
    by reflexivity.
  split; [exact H1|]. split; [exact H2|].
  exact (entries_case_is_irrelevant Scene.generate Scene.bvh_of Scene.track
           _ _ _ _ loaded H1 H2).
Defined.

